(** * tunman: the tunnel manager ([tunman/manager.py])

    A shallow embedding of [TunnelManager]: the shared registry state
    (signatures, process handles, starts history, termination flag), the
    per-tunnel supervision code ([spawn_tunnel], [spawn_ssh_process],
    [_tunnel_loop], [_carefully_sleep]), the status query ([get_stats]) and
    the shutdown sequence ([close_all_tunnels]).

    The Python methods mutate [self] and talk to the operating system; here
    they are functions in a small state-and-exception monad over a [World]
    that holds the manager's fields, the table of running processes, a clock
    and the trace of everything observable the code did. *)

From Stdlib Require Import ZArith Lia Bool Ascii String.
From stdpp Require Import base decidable countable gmap list strings pretty fin_maps.

Local Open Scope string_scope.
Local Open Scope Z_scope.

(* ================================================================== *)
(** ** Python strings *)
(* ================================================================== *)

Module PyStr.

(** The double-quote character, which several messages of the manager
    embed around a signature or a password. *)
Definition dq : string := String (ascii_of_nat 34) EmptyString.

(** [s.startswith(p)] *)
Fixpoint startswith (p s : string) : bool :=
  match p, s with
  | EmptyString, _ => true
  | String a p', String b s' => if Ascii.eqb a b then startswith p' s' else false
  | String _ _, EmptyString => false
  end.

(** [sub in s] for Python strings: [sub] occurs in [s] as a contiguous
    run of characters. *)
Fixpoint contains (sub s : string) : bool :=
  startswith sub s ||
  match s with
  | EmptyString => false
  | String _ s' => contains sub s'
  end.

(** [sep.join(l)] *)
Fixpoint join (sep : string) (l : list string) : string :=
  match l with
  | [] => EmptyString
  | [x] => x
  | x :: l' => x +:+ sep +:+ join sep l'
  end.

(** Python truthiness of an optional text field: [None] and the empty
    string are false. *)
Definition truthy (o : option string) : bool :=
  match o with
  | None => false
  | Some EmptyString => false
  | Some (String _ _) => true
  end.

(** ['%s' % o] for a field known to be truthy. *)
Definition text (o : option string) : string :=
  match o with
  | None => "None"
  | Some s => s
  end.

(** ['%i' % z] *)
Definition fmt_i (z : Z) : string := pretty z.

Lemma app_nil (s : string) : EmptyString +:+ s = s.
Proof. reflexivity. Qed.

Lemma app_cons (a : ascii) (s t : string) :
  String a s +:+ t = String a (s +:+ t).
Proof. reflexivity. Qed.

Lemma app_assoc' (a b c : string) : (a +:+ b) +:+ c = a +:+ (b +:+ c).
Proof.
  induction a as [|x a IH]; [done|].
  rewrite !app_cons. by f_equal.
Qed.

Lemma app_empty_r (a : string) : a +:+ EmptyString = a.
Proof.
  induction a as [|x a IH]; [done|].
  rewrite app_cons. by f_equal.
Qed.

Lemma startswith_spec p s :
  startswith p s = true <-> exists t, s = p +:+ t.
Proof.
  revert s. induction p as [|a p IH]; intros s; simpl.
  - split; [intros _; by exists s | done].
  - destruct s as [|b s].
    + split; [done | intros [t Ht]; discriminate].
    + destruct (Ascii.eqb_spec a b) as [->|Hne].
      * rewrite IH. split; intros [t Ht]; exists t.
        -- by rewrite Ht.
        -- rewrite app_cons in Ht. by injection Ht.
      * split; [done | intros [t Ht]; rewrite app_cons in Ht; injection Ht; congruence].
Qed.

(** [contains] decides the occurrence of [sub] somewhere inside [s]. *)
Lemma contains_spec sub s :
  contains sub s = true <-> exists pre post, s = pre +:+ sub +:+ post.
Proof.
  induction s as [|b s IH]; simpl; rewrite orb_true_iff.
  - split.
    + intros [H|H]; [|done]. apply startswith_spec in H as [t Ht].
      by exists EmptyString, t.
    + intros ([|x pre] & post & H); [|discriminate].
      left. apply startswith_spec. by exists post.
  - split.
    + intros [H|H].
      * apply startswith_spec in H as [t Ht]. by exists EmptyString, t.
      * apply IH in H as (pre & post & ->). by exists (String b pre), post.
    + intros ([|x pre] & post & H).
      * left. apply startswith_spec. by exists post.
      * right. apply IH. rewrite app_cons in H. injection H as _ ->.
        by exists pre, post.
Qed.

Lemma contains_app_r sub pre s :
  contains sub s = true -> contains sub (pre +:+ s) = true.
Proof.
  rewrite !contains_spec. intros (a & b & ->).
  exists (pre +:+ a), b. by rewrite app_assoc'.
Qed.

Lemma contains_app_l sub s post :
  contains sub s = true -> contains sub (s +:+ post) = true.
Proof.
  rewrite !contains_spec. intros (a & b & ->).
  exists a, (b +:+ post). by rewrite !app_assoc'.
Qed.

Lemma contains_refl s : contains s s = true.
Proof.
  apply contains_spec. exists EmptyString, EmptyString.
  by rewrite app_nil, app_empty_r.
Qed.

End PyStr.

(* ================================================================== *)
(** ** The operating-system interface *)
(* ================================================================== *)

(** A running process as [psutil] shows it. *)
Record OsProc := mkOsProc {
  pid : Z;
  proc_name : string;
  cmdline : list string
}.

(** [" ".join(proc.cmdline())] *)
Definition joined_cmdline (p : OsProc) : string := PyStr.join " " (cmdline p).

(** The test of [_find_process_by_signature], line 219. *)
Definition matches_signature (signature : string) (p : OsProc) : bool :=
  PyStr.contains signature (joined_cmdline p) &&
  PyStr.contains "autossh" (joined_cmdline p).

(** [_find_process_by_signature], over the processes in the order
    [psutil.process_iter()] yields them. *)
Fixpoint _find_process_by_signature (signature : string) (procs : list OsProc)
  : option OsProc :=
  match procs with
  | [] => None
  | proc :: rest =>
      if matches_signature signature proc then Some proc
      else _find_process_by_signature signature rest
  end.

(** A [subprocess.Popen] object.  Python compares such objects by identity,
    which [popen_id] (the serial number of the [Popen] call) stands for. *)
Record Popen := mkPopen {
  popen_id : nat;
  popen_pid : Z
}.

#[global] Instance Popen_eq_dec : EqDecision Popen.
Proof. solve_decision. Defined.

(* ================================================================== *)
(** ** Definitions and configuration ([tunman/model.py]) *)
(* ================================================================== *)

(** Modelled from the spec: the validation policy of a definition (class
    [ValidationDefinition] of [tunman/model.py], which is not among the
    sources): probe method, check interval, post-failure wait and
    kill-on-failure flag, the four attributes [manager.py] reads. *)
Record ValidationDefinition := mkValidation {
  method : string;
  interval : Z;
  wait_time_before_restart : Z;
  kill_existing_tunnel_on_failure : bool
}.

(** Modelled from the spec: a tunnel definition (class [Forwarding] of
    [tunman/model.py], which is not among the sources).  The manager only
    asks it for its signature and its validation policy, and uses it as a
    dictionary key; the signature that the method [create_ssh_forwarding]
    computes from the forwarding parameters is kept as a field, so that
    equal definitions have equal signatures. *)
Record Forwarding := mkForwarding {
  ssh_forwarding : string;
  validate : ValidationDefinition
}.

Definition create_ssh_forwarding (definition : Forwarding) : string :=
  ssh_forwarding definition.

(** Modelled from the spec: the per-host settings (class
    [HostTunnelDefinitions] of [tunman/model.py], which is not among the
    sources).  The optional fields are [None] or a text. *)
Record HostTunnelDefinitions := mkHost {
  remote_user : string;
  remote_host : string;
  remote_port : Z;
  remote_key : option string;
  remote_password : option string;
  ssh_opts : option string
}.

#[global] Instance ValidationDefinition_eq_dec : EqDecision ValidationDefinition.
Proof. solve_decision. Defined.

#[global] Instance Forwarding_eq_dec : EqDecision Forwarding.
Proof. solve_decision. Defined.

#[global] Instance HostTunnelDefinitions_eq_dec : EqDecision HostTunnelDefinitions.
Proof. solve_decision. Defined.

#[global] Instance Forwarding_countable : Countable Forwarding.
Proof.
  refine (inj_countable'
    (fun d => (ssh_forwarding d,
               (method (validate d),
                (interval (validate d),
                 (wait_time_before_restart (validate d),
                  kill_existing_tunnel_on_failure (validate d))))))
    (fun t => match t with
              | (s, (m, (i, (t, k)))) => mkForwarding s (mkValidation m i t k)
              end) _).
  by intros [s [m i t k]].
Defined.

(* ================================================================== *)
(** ** Observable events *)
(* ================================================================== *)

Inductive LogLevel := Debug | Info | Error.

Inductive event :=
| EvLog (level : LogLevel) (msg : string)
| EvLockAcquire
| EvLockRelease
| EvReadFlag (value : bool)
| EvSetFlag
| EvSleep (seconds : Z)
| EvIsProcessAlive (signature : string) (result : bool)
| EvCheckTunnelAlive (definition : Forwarding)
    (configuration : HostTunnelDefinitions) (result : bool)
| EvPopen (cmd : string) (handle : Popen)
| EvPoll (handle : Popen) (exited : bool)
| EvPopenKill (handle : Popen)
| EvProcessKill (proc : OsProc)
| EvSignaturesAppend (signature : string)
| EvStartsHistoryAppend (definition : Forwarding) (today : Z)
| EvProcsAppend (handle : Popen)
| EvProcsRemove (handle : Popen)
| EvSpawnSshProcess (signature : string).

(* ================================================================== *)
(** ** The world: manager fields, environment and trace *)
(* ================================================================== *)

(** What the code cannot decide by itself.  The two probes of
    [Validation] (not in the sources) answer by the number of the call; the
    process table changes during a sleep and when a process is launched;
    another thread may set the termination flag during one second of
    sleep, the one that starts at clock value [env_terminate_tick]. *)
Record Env := mkEnv {
  env_is_process_alive : nat -> string -> bool;
  env_check_tunnel_alive : nat -> Forwarding -> HostTunnelDefinitions -> bool;
  env_terminate_tick : option Z;
  env_today : Z -> Z;
  env_popen : nat -> string -> list OsProc -> Z * list OsProc;
  env_sleep : Z -> Z -> list OsProc -> list OsProc
}.

(** The fields of [TunnelManager] ([__init__], lines 20-25). *)
Record TunnelManager := mkManager {
  is_terminating : bool;
  _signatures : list string;
  _procs : list Popen;
  _starts_history : gmap Forwarding (list Z)
}.

Record World := mkWorld {
  self : TunnelManager;
  env : Env;
  os_procs : list OsProc;
  clock : Z;
  alive_calls : nat;
  probe_calls : nat;
  popen_calls : nat;
  trace : list event
}.

(** [TunnelManager()] *)
Definition __init__ : TunnelManager :=
  {| is_terminating := false; _signatures := []; _procs := [];
     _starts_history := ∅ |}.

(** Field updates.  They take the record apart, so that a chain of
    updates is evaluated without copying the world. *)
Definition with_self (f : TunnelManager -> TunnelManager) (w : World) : World :=
  let 'mkWorld s e o c a p n t := w in mkWorld (f s) e o c a p n t.

Definition with_os_procs (f : list OsProc -> list OsProc) (w : World) : World :=
  let 'mkWorld s e o c a p n t := w in mkWorld s e (f o) c a p n t.

Definition with_counters (a' p' n' : nat) (w : World) : World :=
  let 'mkWorld s e o c a p n t := w in mkWorld s e o c a' p' n' t.

Definition record (ev : event) (w : World) : World :=
  let 'mkWorld s e o c a p n t := w in mkWorld s e o c a p n (t ++ [ev]).

Definition set_is_terminating (b : bool) (m : TunnelManager) : TunnelManager :=
  let 'mkManager _ sigs procs h := m in mkManager b sigs procs h.

Definition set_signatures (l : list string) (m : TunnelManager) : TunnelManager :=
  let 'mkManager b _ procs h := m in mkManager b l procs h.

Definition set_procs (l : list Popen) (m : TunnelManager) : TunnelManager :=
  let 'mkManager b sigs _ h := m in mkManager b sigs l h.

Definition set_starts_history (h : gmap Forwarding (list Z)) (m : TunnelManager)
  : TunnelManager :=
  let 'mkManager b sigs procs _ := m in mkManager b sigs procs h.

(** Takes a world and its manager apart and computes the field updates. *)
Ltac destruct_world w :=
  destruct w as [[? ? ? ?] ? ? ? ? ? ? ?]; simpl in *.

(* ================================================================== *)
(** ** The monad of manager code *)
(* ================================================================== *)

Inductive PyExn :=
| ValueError (msg : string)
| NoSuchProcess (pid : Z)
| ZombieProcess (pid : Z)
| AccessDenied (pid : Z).

(** A call returns, raises, or is still running when the fuel (the number
    of loop iterations and recursive calls allowed) is used up; the world
    reached is kept in each case. *)
Inductive Outcome (A : Type) :=
| Ok (a : A) (w : World)
| Raised (e : PyExn) (w : World)
| OutOfFuel (w : World).

Arguments Ok {A} a w.
Arguments Raised {A} e w.
Arguments OutOfFuel {A} w.

Definition outcome_world {A} (o : Outcome A) : World :=
  match o with
  | Ok _ w | Raised _ w | OutOfFuel w => w
  end.

Definition M (A : Type) : Type := World -> Outcome A.

#[global] Instance M_ret : MRet M := fun A a w => Ok a w.

#[global] Instance M_bind : MBind M := fun A B k m w =>
  match m w with
  | Ok a w' => k a w'
  | Raised e w' => Raised e w'
  | OutOfFuel w' => OutOfFuel w'
  end.

Definition raise {A} (e : PyExn) : M A := fun w => Raised e w.
Definition out_of_fuel {A} : M A := fun w => OutOfFuel w.

(** [try: m  finally: h] *)
Definition finally {A} (m : M A) (h : World -> World) : M A := fun w =>
  match m w with
  | Ok a w' => Ok a (h w')
  | Raised e w' => Raised e (h w')
  | OutOfFuel w' => OutOfFuel w'
  end.

Definition emit (e : event) : M unit := fun w => Ok tt (record e w).
Definition modify (f : World -> World) : M unit := fun w => Ok tt (f w).
Definition gets {A} (f : World -> A) : M A := fun w => Ok (f w) w.

(** [with self._lock: m] *)
Definition with_lock {A} (m : M A) : M A :=
  emit EvLockAcquire;; finally m (record EvLockRelease).

(* ================================================================== *)
(** ** Collaborators: logger, clock, probes, processes *)
(* ================================================================== *)

Definition Logger_debug (msg : string) : M unit := emit (EvLog Debug msg).
Definition Logger_info (msg : string) : M unit := emit (EvLog Info msg).
Definition Logger_error (msg : string) : M unit := emit (EvLog Error msg).

(** A read of [self.is_terminating]. *)
Definition read_is_terminating : M bool := fun w =>
  Ok (is_terminating (self w)) (record (EvReadFlag (is_terminating (self w))) w).

(** Does another thread set the flag during a sleep of [seconds] that
    starts at clock value [c]? *)
Definition flag_set_during (e : Env) (c seconds : Z) : bool :=
  match env_terminate_tick e with
  | Some tick => (c <=? tick) && (tick <? c + seconds)
  | None => false
  end.

(** The world after [seconds] of sleep: the clock has advanced, the other
    processes and threads have run. *)
Definition slept (seconds : Z) (w : World) : World :=
  let 'mkWorld s e o c a p n t := w in
  mkWorld (set_is_terminating (is_terminating s || flag_set_during e c seconds) s)
          e (env_sleep e c seconds o) (c + seconds) a p n t.

(** [time.sleep]; a negative length raises [ValueError]. *)
Definition sleep (seconds : Z) : M unit := fun w =>
  if seconds <? 0 then Raised (ValueError "sleep length must be non-negative") w
  else Ok tt (slept seconds (record (EvSleep seconds) w)).

(** [date.today()] *)
Definition date_today : M Z := fun w => Ok (env_today (env w) (clock w)) w.

(** [Validation.is_process_alive(signature)] *)
Definition Validation_is_process_alive (signature : string) : M bool := fun w =>
  let r := env_is_process_alive (env w) (alive_calls w) signature in
  Ok r (record (EvIsProcessAlive signature r)
          (with_counters (S (alive_calls w)) (probe_calls w) (popen_calls w) w)).

(** [Validation.check_tunnel_alive(definition, configuration)] *)
Definition Validation_check_tunnel_alive (definition : Forwarding)
    (configuration : HostTunnelDefinitions) : M bool := fun w =>
  let r := env_check_tunnel_alive (env w) (probe_calls w) definition configuration in
  Ok r (record (EvCheckTunnelAlive definition configuration r)
          (with_counters (alive_calls w) (S (probe_calls w)) (popen_calls w) w)).

(** [subprocess.Popen(cmd, shell=True)] *)
Definition subprocess_Popen (cmd : string) : M Popen := fun w =>
  let launched := env_popen (env w) (popen_calls w) cmd (os_procs w) in
  let proc := mkPopen (popen_calls w) (fst launched) in
  Ok proc (record (EvPopen cmd proc)
             (with_os_procs (fun _ => snd launched)
                (with_counters (alive_calls w) (probe_calls w) (S (popen_calls w)) w))).

(** [psutil.process_iter()] *)
Definition process_iter : M (list OsProc) := gets os_procs.

Definition running (p : Z) (table : list OsProc) : bool :=
  bool_decide (p ∈ pid <$> table).

Definition remove_pid (p : Z) (table : list OsProc) : list OsProc :=
  filter (fun q => pid q ≠ p) table.

(** [psutil.Process.kill()]: raises [NoSuchProcess] when the process is
    gone. *)
Definition Process_kill (proc : OsProc) : M unit := fun w =>
  if running (pid proc) (os_procs w)
  then Ok tt (record (EvProcessKill proc) (with_os_procs (remove_pid (pid proc)) w))
  else Raised (NoSuchProcess (pid proc)) w.

(** [Popen.poll() is not None] *)
Definition Popen_poll_exited (proc : Popen) : M bool := fun w =>
  let exited := negb (running (popen_pid proc) (os_procs w)) in
  Ok exited (record (EvPoll proc exited) w).

(** [Popen.kill()]: does nothing when the child has already exited. *)
Definition Popen_kill (proc : Popen) : M unit := fun w =>
  Ok tt (record (EvPopenKill proc) (with_os_procs (remove_pid (popen_pid proc)) w)).

(* ================================================================== *)
(** ** [TunnelManager] *)
(* ================================================================== *)

(** *** [get_stats] (lines 27-46) *)

Record DefinitionStatus := mkStatus {
  st_pid : option Z;
  st_is_alive : bool;
  st_starts_history : list Z;
  restarts_count : Z
}.

Record Stats := mkStats {
  st_signatures : list string;
  status : gmap Forwarding DefinitionStatus;
  procs_count : Z;
  st_is_terminating : bool
}.

(** Line 32: the recorded history, or the empty list. *)
Definition starts_history_of (definition : Forwarding) (m : TunnelManager) : list Z :=
  match _starts_history m !! definition with
  | Some h => h
  | None => []
  end.

Definition definition_status (definition : Forwarding) (w : World) : DefinitionStatus :=
  let proc := _find_process_by_signature (create_ssh_forwarding definition) (os_procs w) in
  let starts_history := starts_history_of definition (self w) in
  {| st_pid := pid <$> proc;
     st_is_alive := bool_decide (is_Some proc);
     st_starts_history := starts_history;
     restarts_count := Z.abs (Z.of_nat (length starts_history) - 1) |}.

Definition get_stats (definitions : list Forwarding) (w : World) : Stats :=
  let definitions_status :=
    foldl (fun acc definition => <[definition := definition_status definition w]> acc)
          ∅ definitions in
  {| st_signatures := _signatures (self w);
     status := definitions_status;
     procs_count := Z.of_nat (length (_procs (self w)));
     st_is_terminating := is_terminating (self w) |}.

(** *** [_clean_up] (lines 224-238) *)

(** [list.remove(x)]: the list without the first occurrence of [x], or
    [None] for [ValueError]. *)
Fixpoint list_remove (x : Popen) (l : list Popen) : option (list Popen) :=
  match l with
  | [] => None
  | y :: l' => if decide (x = y) then Some l' else (y ::.) <$> list_remove x l'
  end.

Definition procs_remove (proc : Popen) : M unit := fun w =>
  match list_remove proc (_procs (self w)) with
  | Some l => Ok tt (record (EvProcsRemove proc) (with_self (set_procs l) w))
  | None => Ok tt w
  end.

Fixpoint _clean_up_loop (snapshot : list Popen) : M unit :=
  match snapshot with
  | [] => mret tt
  | proc :: rest =>
      Logger_debug ("clean_up: Checking if process pid="
                    +:+ PyStr.fmt_i (popen_pid proc) +:+ " is still alive");;
      exited ← Popen_poll_exited proc;
      (if exited : bool then
         Logger_debug ("clean_up: Freeing proc pid=" +:+ PyStr.fmt_i (popen_pid proc));;
         procs_remove proc
       else mret tt);;
      _clean_up_loop rest
  end.

Definition _clean_up : M unit :=
  snapshot ← gets (fun w => _procs (self w));
  _clean_up_loop snapshot.

(** *** [_carefully_sleep] (lines 177-185) *)

Definition msg_termination_signal : string :=
  "Careful sleep: got termination signal".

Fixpoint _carefully_sleep_ticks (ticks : nat) : M bool :=
  match ticks with
  | O => mret true
  | S ticks' =>
      terminating ← read_is_terminating;
      if terminating : bool then
        Logger_debug msg_termination_signal;;
        mret false
      else
        sleep 1;;
        _carefully_sleep_ticks ticks'
  end.

(** [range(0, sleep_time)] has [max(sleep_time, 0)] elements. *)
Definition _carefully_sleep (sleep_time : Z) : M bool :=
  _carefully_sleep_ticks (Z.to_nat sleep_time).

(** *** Building the command (lines 57-64 and 98-110) *)

(** Lines 57-61: the [opts] of [spawn_tunnel]. *)
Definition identity_opts (configuration : HostTunnelDefinitions) : string :=
  if negb (PyStr.truthy (ssh_opts configuration)) then
    if PyStr.truthy (remote_key configuration)
    then " -i " +:+ PyStr.text (remote_key configuration)
    else EmptyString
  else EmptyString.

(** Line 64: [forwarding = opts + ' ' + signature]. *)
Definition forwarding_args (definition : Forwarding)
    (configuration : HostTunnelDefinitions) : string :=
  identity_opts configuration +:+ " " +:+ create_ssh_forwarding definition.

(** Lines 98-101: the optional [sshpass] wrapper. *)
Definition sshpass_prefix (configuration : HostTunnelDefinitions) : string :=
  if PyStr.truthy (remote_password configuration)
  then "sshpass -p " +:+ PyStr.dq +:+ PyStr.text (remote_password configuration)
       +:+ PyStr.dq +:+ " "
  else EmptyString.

(** The options every launch carries (line 103). *)
Definition fixed_ssh_opts : string :=
  "-o 'PubkeyAuthentication=yes' -o 'PasswordAuthentication=no' -nT".

(** Line 105: ['-p %i %s@%s']. *)
Definition destination (configuration : HostTunnelDefinitions) : string :=
  "-p " +:+ PyStr.fmt_i (remote_port configuration) +:+ " "
  +:+ remote_user configuration +:+ "@" +:+ remote_host configuration.

(** Lines 98-110: [cmd]. *)
Definition launch_cmd (args : string) (configuration : HostTunnelDefinitions) : string :=
  sshpass_prefix configuration
  +:+ "autossh -M 0 -N -f " +:+ fixed_ssh_opts +:+ " " +:+ args +:+ " "
  +:+ destination configuration.

(** *** [spawn_ssh_process] and [_tunnel_loop] (lines 77-175) *)

Definition procs_append (proc : Popen) : M unit :=
  emit (EvProcsAppend proc);;
  modify (with_self (fun m => set_procs (_procs m ++ [proc])%list m)).

(** Lines 169-173: kill the process found by signature, if any. *)
Definition kill_existing (signature : string) : M unit :=
  snapshot ← process_iter;
  match _find_process_by_signature signature snapshot with
  | Some proc => Process_kill proc
  | None => mret tt
  end.

(** How one pass through the body of the [while True] of [_tunnel_loop]
    ends: [return] at line 149, [continue] (or the end of the body), or
    [return self.spawn_ssh_process(...)] at line 155 or 175. *)
Inductive LoopStep := LoopReturn | LoopContinue | LoopRelaunch.

(** The messages of [_tunnel_loop] (lines 151, 154, 158 and 166). *)
Definition msg_running_checks (signature : string) : string :=
  "Running checks for signature " +:+ PyStr.dq +:+ signature +:+ PyStr.dq.

Definition msg_tunnel_exited (signature : string) : string :=
  "The tunnel process exited for signature " +:+ PyStr.dq +:+ signature
  +:+ PyStr.dq.

Definition msg_health_check_failed (definition : Forwarding) (signature : string)
  : string :=
  "The health check " +:+ PyStr.dq +:+ method (validate definition) +:+ PyStr.dq
  +:+ " failed for signature " +:+ PyStr.dq +:+ signature +:+ PyStr.dq.

Definition msg_recovered (signature : string) : string :=
  "Tunnel " +:+ PyStr.dq +:+ signature +:+ PyStr.dq +:+ " was recovered with restart".

(** Lines 148-175, one iteration. *)
Definition _tunnel_loop_iteration (definition : Forwarding)
    (configuration : HostTunnelDefinitions) (signature : string) : M LoopStep :=
  awake ← _carefully_sleep (interval (validate definition));
  if negb awake then mret LoopReturn else
  Logger_debug (msg_running_checks signature);;
  alive ← Validation_is_process_alive signature;
  if negb alive then
    Logger_error (msg_tunnel_exited signature);;
    mret LoopRelaunch
  else
  healthy ← Validation_check_tunnel_alive definition configuration;
  if negb healthy then
    Logger_error (msg_health_check_failed definition signature);;
    let time_to_wait_on_health_check_failure :=
      wait_time_before_restart (validate definition) in
    sleep time_to_wait_on_health_check_failure;;
    recovered ← (if time_to_wait_on_health_check_failure =? 0 then mret false
                 else Validation_check_tunnel_alive definition configuration);
    if recovered : bool then
      Logger_info (msg_recovered signature);;
      mret LoopContinue
    else
      (if kill_existing_tunnel_on_failure (validate definition)
       then kill_existing signature else mret tt);;
      mret LoopRelaunch
  else mret LoopContinue.

(** Every call of [spawn_ssh_process] and every iteration of the loop
    uses one unit of fuel. *)
Fixpoint spawn_ssh_process (fuel : nat) (args : string) (definition : Forwarding)
    (configuration : HostTunnelDefinitions) (signature : string) {struct fuel}
  : M unit :=
  match fuel with
  | O => out_of_fuel
  | S fuel' =>
      emit (EvSpawnSshProcess signature);;
      with_lock _clean_up;;
      terminating ← read_is_terminating;
      if terminating : bool then mret tt else
      let cmd := launch_cmd args configuration in
      Logger_info ("Spawning " +:+ cmd);;
      proc ← subprocess_Popen cmd;
      with_lock (procs_append proc);;
      sleep 10;;
      alive ← Validation_is_process_alive signature;
      if negb alive then
        (* [proc.stdout] is [None]: reading it fails and both texts are empty *)
        Logger_error ("Cannot spawn " +:+ cmd +:+ ", stdout=, stderr=");;
        sleep 15;;
        spawn_ssh_process fuel' args definition configuration signature
      else
        Logger_info ("Process for " +:+ PyStr.dq +:+ signature +:+ PyStr.dq
                     +:+ " survived initialization, got pid="
                     +:+ PyStr.fmt_i (popen_pid proc));;
        _tunnel_loop fuel' definition configuration signature args
  end
with _tunnel_loop (fuel : nat) (definition : Forwarding)
    (configuration : HostTunnelDefinitions) (signature : string) (args : string)
    {struct fuel} : M unit :=
  match fuel with
  | O => out_of_fuel
  | S fuel' =>
      step ← _tunnel_loop_iteration definition configuration signature;
      match step with
      | LoopReturn => mret tt
      | LoopContinue => _tunnel_loop fuel' definition configuration signature args
      | LoopRelaunch =>
          spawn_ssh_process fuel' args definition configuration signature
      end
  end.

(** *** [spawn_tunnel] (lines 48-75) *)

(** Lines 70-73 on the dictionary. *)
Definition starts_history_append (definition : Forwarding) (today : Z)
    (h : gmap Forwarding (list Z)) : gmap Forwarding (list Z) :=
  let h1 := match h !! definition with
            | Some _ => h
            | None => <[definition := []]> h
            end in
  match h1 !! definition with
  | Some l => <[definition := (l ++ [today])%list]> h1
  | None => h1
  end.

(** Lines 68-73, the body of the [with self._lock]. *)
Definition register_start (definition : Forwarding) (signature : string) : M unit :=
  emit (EvSignaturesAppend signature);;
  modify (with_self (fun m => set_signatures (_signatures m ++ [signature])%list m));;
  today ← date_today;
  emit (EvStartsHistoryAppend definition today);;
  modify (with_self (fun m =>
    set_starts_history (starts_history_append definition today (_starts_history m)) m)).

Definition spawn_tunnel (fuel : nat) (definition : Forwarding)
    (configuration : HostTunnelDefinitions) : M unit :=
  let signature := create_ssh_forwarding definition in
  let forwarding := forwarding_args definition configuration in
  Logger_info ("Created SSH args: " +:+ forwarding);;
  with_lock (register_start definition signature);;
  spawn_ssh_process fuel forwarding definition configuration signature.

(** *** [close_all_tunnels] (lines 187-212) *)

(** Lines 204-208: the sweep over one snapshot of the process table. *)
Fixpoint kill_all_matching (signature : string) (snapshot : list OsProc) : M unit :=
  match snapshot with
  | [] => mret tt
  | proc :: rest =>
      (if PyStr.contains signature (joined_cmdline proc)
       then Process_kill proc else mret tt);;
      kill_all_matching signature rest
  end.

(** Lines 197-208. *)
Fixpoint close_signatures (signatures : list string) : M unit :=
  match signatures with
  | [] => mret tt
  | signature :: rest =>
      snapshot ← process_iter;
      match _find_process_by_signature signature snapshot with
      | Some proc =>
          Logger_info ("Killing " +:+ PyStr.fmt_i (pid proc) +:+ " ("
                       +:+ proc_name proc +:+ ")");;
          Process_kill proc
      | None => mret tt
      end;;
      snapshot ← process_iter;
      kill_all_matching signature snapshot;;
      close_signatures rest
  end.

(** Lines 210-212. *)
Fixpoint kill_handles (procs : list Popen) : M unit :=
  match procs with
  | [] => mret tt
  | proc :: rest =>
      Logger_info ("Killing " +:+ PyStr.fmt_i (popen_pid proc));;
      Popen_kill proc;;
      kill_handles rest
  end.

Definition close_all_tunnels : M unit :=
  emit EvSetFlag;;
  modify (with_self (set_is_terminating true));;
  signatures ← gets (fun w => _signatures (self w));
  close_signatures signatures;;
  procs ← gets (fun w => _procs (self w));
  kill_handles procs.

(* ================================================================== *)
(** ** [psutil] calls that fail *)
(* ================================================================== *)

(** The manager calls [cmdline()], [name()] and [kill()] of
    [psutil.Process] outside any [try] (lines 201-208 and 217).  Each of the
    three raises [NoSuchProcess], [ZombieProcess] or [AccessDenied] when the
    process has gone, is a zombie or belongs to another user; and [kill()],
    like [Popen.kill()], only sends SIGKILL, so that the process may still
    be in the table when the call returns.  The definitions of this module
    follow the same lines of the source with these calls as [psutil] has
    them; the definitions above are the case in which no call fails and a
    killed process leaves the table at once ([no_faults]). *)
Module Psutil.

(** Which calls fail, and which processes stay in the table after
    SIGKILL, in the world in which the call is made. *)
Record Faults := mkFaults {
  cmdline_fault : World -> OsProc -> option PyExn;
  name_fault : World -> OsProc -> option PyExn;
  kill_fault : World -> OsProc -> option PyExn;
  lingers : World -> Z -> bool
}.

Definition no_faults : Faults :=
  {| cmdline_fault := fun _ _ => None;
     name_fault := fun _ _ => None;
     kill_fault := fun _ _ => None;
     lingers := fun _ _ => false |}.

(** [proc.cmdline()] *)
Definition Process_cmdline (f : Faults) (proc : OsProc) : M (list string) := fun w =>
  match cmdline_fault f w proc with
  | Some e => Raised e w
  | None => Ok (cmdline proc) w
  end.

(** [proc.name()] *)
Definition Process_name (f : Faults) (proc : OsProc) : M string := fun w =>
  match name_fault f w proc with
  | Some e => Raised e w
  | None => Ok (proc_name proc) w
  end.

(** The table after SIGKILL was sent to the process [p]. *)
Definition signalled (f : Faults) (p : Z) (w : World) : World :=
  if lingers f w p then w else with_os_procs (remove_pid p) w.

(** [psutil.Process.kill()] *)
Definition Process_kill (f : Faults) (proc : OsProc) : M unit := fun w =>
  match kill_fault f w proc with
  | Some e => Raised e w
  | None =>
      if running (pid proc) (os_procs w)
      then Ok tt (record (EvProcessKill proc) (signalled f (pid proc) w))
      else Raised (NoSuchProcess (pid proc)) w
  end.

(** [Popen.kill()] *)
Definition Popen_kill (f : Faults) (proc : Popen) : M unit := fun w =>
  Ok tt (record (EvPopenKill proc) (signalled f (popen_pid proc) w)).

(** Lines 216-222, over the processes that [psutil.process_iter()] yields. *)
Fixpoint find_in (f : Faults) (signature : string) (snapshot : list OsProc)
  : M (option OsProc) :=
  match snapshot with
  | [] => mret None
  | proc :: rest =>
      words ← Process_cmdline f proc;
      let cmdline := PyStr.join " " words in
      if PyStr.contains signature cmdline && PyStr.contains "autossh" cmdline
      then mret (Some proc)
      else find_in f signature rest
  end.

Definition _find_process_by_signature (f : Faults) (signature : string)
  : M (option OsProc) :=
  snapshot ← process_iter;
  find_in f signature snapshot.

(** Lines 204-208. *)
Fixpoint kill_all_matching (f : Faults) (signature : string)
    (snapshot : list OsProc) : M unit :=
  match snapshot with
  | [] => mret tt
  | proc :: rest =>
      words ← Process_cmdline f proc;
      let cmdline := PyStr.join " " words in
      (if PyStr.contains signature cmdline
       then Process_kill f proc else mret tt);;
      kill_all_matching f signature rest
  end.

(** Lines 198-202. *)
Definition kill_found (f : Faults) (signature : string) : M unit :=
  found ← _find_process_by_signature f signature;
  match found with
  | Some proc =>
      name ← Process_name f proc;
      Logger_info ("Killing " +:+ PyStr.fmt_i (pid proc) +:+ " ("
                   +:+ name +:+ ")");;
      Process_kill f proc
  | None => mret tt
  end.

(** Lines 197-208. *)
Fixpoint close_signatures (f : Faults) (signatures : list string) : M unit :=
  match signatures with
  | [] => mret tt
  | signature :: rest =>
      kill_found f signature;;
      snapshot ← process_iter;
      kill_all_matching f signature snapshot;;
      close_signatures f rest
  end.

(** Lines 210-212. *)
Fixpoint kill_handles (f : Faults) (procs : list Popen) : M unit :=
  match procs with
  | [] => mret tt
  | proc :: rest =>
      Logger_info ("Killing " +:+ PyStr.fmt_i (popen_pid proc));;
      Popen_kill f proc;;
      kill_handles f rest
  end.

(** [close_all_tunnels], lines 187-212. *)
Definition close_all_tunnels (f : Faults) : M unit :=
  emit EvSetFlag;;
  modify (with_self (set_is_terminating true));;
  signatures ← gets (fun w => _signatures (self w));
  close_signatures f signatures;;
  procs ← gets (fun w => _procs (self w));
  kill_handles f procs.

End Psutil.

(* ================================================================== *)
(** ** Running monadic code *)
(* ================================================================== *)

Lemma bind_run {A B} (m : M A) (k : A -> M B) (w : World) :
  (m ≫= k) w =
  match m w with
  | Ok a w' => k a w'
  | Raised e w' => Raised e w'
  | OutOfFuel w' => OutOfFuel w'
  end.
Proof. reflexivity. Qed.

Lemma bind_ok {A B} (m : M A) (k : A -> M B) (w w' : World) (a : A) :
  m w = Ok a w' -> (m ≫= k) w = k a w'.
Proof. intros H. by rewrite bind_run, H. Qed.

Lemma ret_run {A} (a : A) (w : World) : (mret a : M A) w = Ok a w.
Proof. reflexivity. Qed.

(** Unfolds the monad and the state-only primitives, and computes. *)
Ltac run_monad :=
  cbv [mbind M_bind mret M_ret emit modify gets finally with_lock raise
       out_of_fuel Logger_debug Logger_info Logger_error read_is_terminating
       date_today register_start procs_append process_iter
       record with_self with_os_procs with_counters
       set_is_terminating set_signatures set_procs set_starts_history];
  cbn [self env os_procs clock alive_calls probe_calls popen_calls trace
       is_terminating _signatures _procs _starts_history outcome_world
       negb fst snd].

(* ================================================================== *)
(** ** The lookup by signature *)
(* ================================================================== *)

(** [sub] occurs in [s]. *)
Definition occurs_in (sub s : string) : Prop :=
  exists pre post, s = pre +:+ sub +:+ post.

(** The command line of [p] contains the signature and the marker. *)
Definition is_tunnel_of (signature : string) (p : OsProc) : Prop :=
  occurs_in signature (joined_cmdline p) /\ occurs_in "autossh" (joined_cmdline p).

Lemma matches_signature_spec signature p :
  matches_signature signature p = true <-> is_tunnel_of signature p.
Proof.
  unfold matches_signature, is_tunnel_of, occurs_in.
  by rewrite andb_true_iff, !PyStr.contains_spec.
Qed.

Lemma find_some_elem signature procs proc :
  _find_process_by_signature signature procs = Some proc -> proc ∈ procs.
Proof.
  induction procs as [|q rest IH]; simpl; [done|].
  destruct (matches_signature signature q).
  - intros [= ->]. apply list_elem_of_here.
  - intros H. apply list_elem_of_further. auto.
Qed.


(* ================================================================== *)
(** ** The launch command *)
(* ================================================================== *)

(** Is the identity-file option part of the command?  (Lines 59-61.) *)
Definition uses_identity_file (configuration : HostTunnelDefinitions) : bool :=
  negb (PyStr.truthy (ssh_opts configuration)) &&
  PyStr.truthy (remote_key configuration).

(** The text between [autossh -M 0 -N -f] and the signature. *)
Definition ssh_opts_text (configuration : HostTunnelDefinitions) : string :=
  fixed_ssh_opts +:+ " " +:+ identity_opts configuration.

Lemma identity_opts_cases configuration :
  identity_opts configuration =
  if uses_identity_file configuration
  then " -i " +:+ PyStr.text (remote_key configuration)
  else EmptyString.
Proof.
  unfold identity_opts, uses_identity_file.
  by destruct (PyStr.truthy (ssh_opts configuration)),
              (PyStr.truthy (remote_key configuration)).
Qed.

(** C7: the command launched for a definition is
    [sshpass -p "<password>" ] (only when a password is set), then
    [autossh -M 0 -N -f <ssh-opts> <signature> -p <port> <user>@<host>],
    and [<ssh-opts>] carries [-i <key>] exactly when no custom options are
    given and a key path is present. *)
Theorem launch_cmd_form (definition : Forwarding)
    (configuration : HostTunnelDefinitions) :
  launch_cmd (forwarding_args definition configuration) configuration =
    sshpass_prefix configuration
    +:+ "autossh -M 0 -N -f " +:+ ssh_opts_text configuration
    +:+ " " +:+ create_ssh_forwarding definition
    +:+ " -p " +:+ PyStr.fmt_i (remote_port configuration)
    +:+ " " +:+ remote_user configuration +:+ "@" +:+ remote_host configuration
  /\ sshpass_prefix configuration =
       (if PyStr.truthy (remote_password configuration)
        then "sshpass -p " +:+ PyStr.dq
             +:+ PyStr.text (remote_password configuration) +:+ PyStr.dq +:+ " "
        else EmptyString)
  /\ (PyStr.startswith "sshpass -p "
        (launch_cmd (forwarding_args definition configuration) configuration) = true
      <-> PyStr.truthy (remote_password configuration) = true)
  /\ ssh_opts_text configuration =
       (if uses_identity_file configuration
        then fixed_ssh_opts +:+ "  -i " +:+ PyStr.text (remote_key configuration)
        else fixed_ssh_opts +:+ " ")
  /\ (PyStr.contains " -i " (ssh_opts_text configuration) = true
      <-> uses_identity_file configuration = true).
Proof.
  split; [|split; [|split; [|split]]].
  - unfold launch_cmd, forwarding_args, ssh_opts_text, destination.
    by rewrite !PyStr.app_assoc'.
  - reflexivity.
  - unfold launch_cmd, sshpass_prefix.
    destruct (PyStr.truthy (remote_password configuration)); [done|].
    split; [|done]. intros H. by vm_compute in H.
  - unfold ssh_opts_text. rewrite identity_opts_cases.
    by destruct (uses_identity_file configuration).
  - unfold ssh_opts_text. rewrite identity_opts_cases.
    destruct (uses_identity_file configuration).
    + split; [done|]. intros _.
      apply PyStr.contains_spec.
      exists (fixed_ssh_opts +:+ " "), (PyStr.text (remote_key configuration)).
      by rewrite !PyStr.app_assoc'.
    + split; [|done]. intros H. by vm_compute in H.
Qed.

(* ================================================================== *)
(** ** The status query *)
(* ================================================================== *)

Lemma get_stats_status_lookup definitions definition w :
  definition ∈ definitions ->
  status (get_stats definitions w) !! definition
  = Some (definition_status definition w).
Proof.
  unfold get_stats; simpl.
  induction definitions as [|d l IH] using rev_ind; intros Hin.
  - by apply elem_of_nil in Hin.
  - rewrite foldl_snoc.
    destruct (decide (d = definition)) as [->|Hne].
    + by rewrite lookup_insert_eq.
    + rewrite lookup_insert_ne by done. apply IH.
      apply elem_of_app in Hin as [Hin|Hin]; [done|].
      apply list_elem_of_singleton in Hin. congruence.
Qed.

Lemma get_stats_status_absent definitions definition w :
  definition ∉ definitions ->
  status (get_stats definitions w) !! definition = None.
Proof.
  unfold get_stats; simpl.
  induction definitions as [|d l IH] using rev_ind; intros Hin.
  - apply lookup_empty.
  - rewrite foldl_snoc. rewrite not_elem_of_app in Hin. destruct Hin as [Hl Hd].
    rewrite lookup_insert_ne; [by apply IH|].
    intros ->. apply Hd, list_elem_of_here.
Qed.

(** What [get_stats] reports as restart count, in general. *)
Lemma get_stats_restarts_count definitions definition w :
  definition ∈ definitions ->
  restarts_count <$> status (get_stats definitions w) !! definition
  = Some (Z.abs (Z.of_nat (length (starts_history_of definition (self w))) - 1)).
Proof. intros Hin. by rewrite get_stats_status_lookup. Qed.

(** With at least one recorded start the reported count is
    [max(len(starts_history) - 1, 0)]. *)
Lemma get_stats_restarts_count_started definitions definition w :
  definition ∈ definitions ->
  starts_history_of definition (self w) <> [] ->
  restarts_count <$> status (get_stats definitions w) !! definition
  = Some (Z.max (Z.of_nat (length (starts_history_of definition (self w))) - 1) 0).
Proof.
  intros Hin Hne. rewrite get_stats_restarts_count by done. f_equal.
  destruct (starts_history_of definition (self w)); [done|].
  rewrite length_cons. lia.
Qed.

(** C1: for a definition that was never spawned, [get_stats] reports
    [restarts_count = 1] and an empty history, where
    [max(len(starts_history) - 1, 0)] is [0]: line 38 takes the absolute
    value of [-1]. *)
Theorem get_stats_never_spawned (definitions : list Forwarding)
    (definition : Forwarding) (w : World) :
  definition ∈ definitions ->
  _starts_history (self w) !! definition = None ->
  exists st,
    status (get_stats definitions w) !! definition = Some st /\
    st_starts_history st = [] /\
    restarts_count st = 1 /\
    Z.max (Z.of_nat (length (st_starts_history st)) - 1) 0 = 0.
Proof.
  intros Hin Hnone. exists (definition_status definition w).
  split; [by apply get_stats_status_lookup|].
  unfold definition_status, starts_history_of; simpl.
  by rewrite Hnone.
Qed.

(* ================================================================== *)
(** ** Frame reasoning *)
(* ================================================================== *)

(** [m] relates every world to the world it reaches from it, whether it
    returns, raises or is still running. *)
Definition preserves {A} (R : World -> World -> Prop) (m : M A) : Prop :=
  forall w, R w (outcome_world (m w)).

Section Preserves.
Variable R : World -> World -> Prop.
Hypothesis R_refl : forall w, R w w.
Hypothesis R_trans : forall a b c, R a b -> R b c -> R a c.

Lemma preserves_ret {A} (a : A) : preserves R (mret a : M A).
Proof. intros w. apply R_refl. Qed.

Lemma preserves_gets {A} (f : World -> A) : preserves R (gets f).
Proof. intros w. apply R_refl. Qed.

Lemma preserves_raise {A} (e : PyExn) : preserves R (raise e : M A).
Proof. intros w. apply R_refl. Qed.

Lemma preserves_out_of_fuel {A} : preserves R (out_of_fuel : M A).
Proof. intros w. apply R_refl. Qed.

Lemma preserves_bind {A B} (m : M A) (k : A -> M B) :
  preserves R m -> (forall a, preserves R (k a)) -> preserves R (m ≫= k).
Proof.
  intros Hm Hk w. rewrite bind_run. specialize (Hm w).
  destruct (m w) as [a w'|e w'|w']; simpl in *; try done.
  eapply R_trans; [exact Hm | apply Hk].
Qed.

Lemma preserves_finally {A} (m : M A) (h : World -> World) :
  preserves R m -> (forall w, R w (h w)) -> preserves R (finally m h).
Proof.
  intros Hm Hh w. unfold finally. specialize (Hm w).
  destruct (m w) as [a w'|e w'|w']; simpl in *; try done;
    (eapply R_trans; [exact Hm | apply Hh]).
Qed.

Lemma preserves_if {A} (b : bool) (m1 m2 : M A) :
  preserves R m1 -> preserves R m2 -> preserves R (if b then m1 else m2).
Proof. by destruct b. Qed.
End Preserves.

Definition no_history_append (e : event) : Prop :=
  match e with
  | EvStartsHistoryAppend _ _ => False
  | _ => True
  end.

(** From [w] to [w'] the environment and the starts history are the same
    and the trace has grown by events that are not history appends. *)
Definition keeps_history (w w' : World) : Prop :=
  env w' = env w /\
  _starts_history (self w') = _starts_history (self w) /\
  exists evs, trace w' = (trace w ++ evs)%list /\ Forall no_history_append evs.

Lemma keeps_history_refl w : keeps_history w w.
Proof. repeat split. exists []. by rewrite app_nil_r. Qed.

Lemma keeps_history_trans a b c :
  keeps_history a b -> keeps_history b c -> keeps_history a c.
Proof.
  intros (He1 & Hh1 & e1 & Ht1 & HF1) (He2 & Hh2 & e2 & Ht2 & HF2).
  repeat split; [congruence | congruence |].
  exists (e1 ++ e2)%list. split.
  - by rewrite Ht2, Ht1, app_assoc.
  - by apply Forall_app.
Qed.

Lemma keeps_history_record e w : no_history_append e -> keeps_history w (record e w).
Proof.
  intros He. destruct_world w. repeat split. exists [e]. split; [done | by constructor].
Qed.

Create HintDb frame.

Lemma keeps_bind {A B} (m : M A) (k : A -> M B) :
  preserves keeps_history m -> (forall a, preserves keeps_history (k a)) ->
  preserves keeps_history (m ≫= k).
Proof. apply preserves_bind, keeps_history_trans. Qed.

Lemma keeps_ret {A} (a : A) : preserves keeps_history (mret a : M A).
Proof. apply preserves_ret, keeps_history_refl. Qed.

Lemma keeps_gets {A} (f : World -> A) : preserves keeps_history (gets f).
Proof. apply preserves_gets, keeps_history_refl. Qed.

Lemma keeps_out_of_fuel {A} : preserves keeps_history (out_of_fuel : M A).
Proof. apply preserves_out_of_fuel, keeps_history_refl. Qed.

Lemma keeps_finally {A} (m : M A) (e : event) :
  preserves keeps_history m -> no_history_append e ->
  preserves keeps_history (finally m (record e)).
Proof.
  intros Hm He. apply preserves_finally; [apply keeps_history_trans | done |].
  intros w. by apply keeps_history_record.
Qed.

Ltac frame_step :=
  first
    [ solve [auto with frame]
    | apply keeps_ret
    | apply keeps_gets
    | apply keeps_out_of_fuel
    | apply preserves_if
    | apply keeps_bind; [|intros ?] ].

Lemma keeps_emit e : no_history_append e -> preserves keeps_history (emit e).
Proof. intros He w. by apply keeps_history_record. Qed.

Lemma keeps_Logger_debug msg : preserves keeps_history (Logger_debug msg).
Proof. by apply keeps_emit. Qed.

Lemma keeps_Logger_info msg : preserves keeps_history (Logger_info msg).
Proof. by apply keeps_emit. Qed.

Lemma keeps_Logger_error msg : preserves keeps_history (Logger_error msg).
Proof. by apply keeps_emit. Qed.

Lemma keeps_read_is_terminating : preserves keeps_history read_is_terminating.
Proof. intros w. by apply keeps_history_record. Qed.

Lemma keeps_sleep seconds : preserves keeps_history (sleep seconds).
Proof.
  intros w. unfold sleep. destruct (seconds <? 0); [simpl|destruct_world w].
  - apply keeps_history_refl.
  - repeat split. exists [EvSleep seconds]. split; [done | by constructor].
Qed.

Lemma keeps_is_process_alive signature :
  preserves keeps_history (Validation_is_process_alive signature).
Proof.
  intros w. destruct_world w. repeat split. eexists [_]. split; [done | by constructor].
Qed.

Lemma keeps_check_tunnel_alive definition configuration :
  preserves keeps_history (Validation_check_tunnel_alive definition configuration).
Proof.
  intros w. destruct_world w. repeat split. eexists [_]. split; [done | by constructor].
Qed.

Lemma keeps_Popen cmd : preserves keeps_history (subprocess_Popen cmd).
Proof.
  intros w. destruct_world w. repeat split. eexists [_]. split; [done | by constructor].
Qed.

Lemma keeps_Process_kill proc : preserves keeps_history (Process_kill proc).
Proof.
  intros w. unfold Process_kill. destruct (running _ _); simpl.
  - destruct_world w. repeat split. eexists [_]. split; [done | by constructor].
  - apply keeps_history_refl.
Qed.

Lemma keeps_Popen_poll proc : preserves keeps_history (Popen_poll_exited proc).
Proof. intros w. by apply keeps_history_record. Qed.

Lemma keeps_Popen_kill proc : preserves keeps_history (Popen_kill proc).
Proof.
  intros w. destruct_world w. repeat split. eexists [_]. split; [done | by constructor].
Qed.

Lemma keeps_procs_remove proc : preserves keeps_history (procs_remove proc).
Proof.
  intros w. unfold procs_remove. destruct (list_remove _ _); simpl.
  - destruct_world w. repeat split. eexists [_]. split; [done | by constructor].
  - apply keeps_history_refl.
Qed.

Lemma keeps_procs_append proc : preserves keeps_history (procs_append proc).
Proof.
  intros w. destruct_world w. repeat split. eexists [_]. split; [done | by constructor].
Qed.

#[local] Hint Resolve keeps_emit keeps_Logger_debug keeps_Logger_info
  keeps_Logger_error keeps_read_is_terminating keeps_sleep
  keeps_is_process_alive keeps_check_tunnel_alive keeps_Popen
  keeps_Process_kill keeps_Popen_poll keeps_Popen_kill keeps_procs_remove
  keeps_procs_append : frame.

Lemma keeps_with_lock {A} (m : M A) :
  preserves keeps_history m -> preserves keeps_history (with_lock m).
Proof.
  intros Hm. unfold with_lock. apply keeps_bind; [by apply keeps_emit|].
  intros _. by apply keeps_finally.
Qed.

Lemma keeps_clean_up : preserves keeps_history _clean_up.
Proof.
  unfold _clean_up. frame_step; [frame_step|].
  induction a as [|proc rest IH]; simpl; repeat frame_step.
Qed.

Lemma keeps_carefully_sleep sleep_time :
  preserves keeps_history (_carefully_sleep sleep_time).
Proof.
  unfold _carefully_sleep.
  induction (Z.to_nat sleep_time) as [|n IH]; simpl; repeat frame_step.
Qed.

Lemma keeps_kill_existing signature :
  preserves keeps_history (kill_existing signature).
Proof.
  unfold kill_existing, process_iter. frame_step; [frame_step|].
  destruct (_find_process_by_signature signature a); repeat frame_step.
Qed.

#[local] Hint Resolve keeps_with_lock keeps_clean_up keeps_carefully_sleep
  keeps_kill_existing : frame.

Lemma keeps_tunnel_loop_iteration definition configuration signature :
  preserves keeps_history (_tunnel_loop_iteration definition configuration signature).
Proof. unfold _tunnel_loop_iteration. repeat frame_step. Qed.

#[local] Hint Resolve keeps_tunnel_loop_iteration : frame.

Lemma keeps_spawn_and_loop fuel :
  (forall args definition configuration signature,
     preserves keeps_history
       (spawn_ssh_process fuel args definition configuration signature)) /\
  (forall definition configuration signature args,
     preserves keeps_history
       (_tunnel_loop fuel definition configuration signature args)).
Proof.
  induction fuel as [|fuel [IHs IHl]]; split; intros; simpl;
    try (apply preserves_out_of_fuel; apply keeps_history_refl).
  - repeat frame_step. by apply keeps_emit.
  - frame_step; [frame_step|]. destruct a; repeat frame_step.
Qed.

(* ================================================================== *)
(** ** Starts history *)
(* ================================================================== *)

Lemma starts_history_append_insert definition today (h : gmap Forwarding (list Z)) :
  starts_history_append definition today h
  = <[definition := (default [] (h !! definition) ++ [today])%list]> h.
Proof.
  unfold starts_history_append.
  destruct (h !! definition) as [l|] eqn:Hl; simpl.
  - by rewrite Hl.
  - by rewrite lookup_insert_eq, insert_insert_eq.
Qed.

(** The world in which [spawn_tunnel] calls [spawn_ssh_process]: the
    signature and today's date have been registered under the lock. *)
Definition registered (definition : Forwarding)
    (configuration : HostTunnelDefinitions) (w : World) : World :=
  let today := env_today (env w) (clock w) in
  {| self :=
       {| is_terminating := is_terminating (self w);
          _signatures := (_signatures (self w) ++ [create_ssh_forwarding definition])%list;
          _procs := _procs (self w);
          _starts_history :=
            starts_history_append definition today (_starts_history (self w)) |};
     env := env w; os_procs := os_procs w; clock := clock w;
     alive_calls := alive_calls w; probe_calls := probe_calls w;
     popen_calls := popen_calls w;
     trace := (trace w ++
               [EvLog Info ("Created SSH args: " +:+ forwarding_args definition configuration);
                EvLockAcquire;
                EvSignaturesAppend (create_ssh_forwarding definition);
                EvStartsHistoryAppend definition today;
                EvLockRelease])%list |}.

Lemma spawn_tunnel_run fuel definition configuration w :
  spawn_tunnel fuel definition configuration w
  = spawn_ssh_process fuel (forwarding_args definition configuration) definition
      configuration (create_ssh_forwarding definition)
      (registered definition configuration w).
Proof.
  destruct_world w. unfold spawn_tunnel, registered. run_monad.
  rewrite <- !app_assoc. reflexivity.
Qed.

(** C6: the launch/verify routine, with all its internal retries (and the
    monitoring and relaunching that follow), leaves the starts-history map
    as it is and performs no history append; a call of [spawn_tunnel]
    appends exactly one entry, today's date, to the history of its
    definition, between taking and releasing the lock, and nothing after. *)
Theorem history_appended_only_by_spawn_tunnel (fuel : nat) (args signature : string)
    (definition : Forwarding) (configuration : HostTunnelDefinitions) (w : World) :
  (let w' := outcome_world
               (spawn_ssh_process fuel args definition configuration signature w) in
   _starts_history (self w') = _starts_history (self w) /\
   exists evs, trace w' = (trace w ++ evs)%list /\ Forall no_history_append evs)
  /\
  (let w' := outcome_world (spawn_tunnel fuel definition configuration w) in
   let today := env_today (env w) (clock w) in
   _starts_history (self w')
   = <[definition := (starts_history_of definition (self w) ++ [today])%list]>
       (_starts_history (self w)) /\
   exists evs,
     trace w' =
       (trace w ++
        [EvLog Info ("Created SSH args: " +:+ forwarding_args definition configuration);
         EvLockAcquire;
         EvSignaturesAppend (create_ssh_forwarding definition);
         EvStartsHistoryAppend definition today;
         EvLockRelease] ++ evs)%list /\
     Forall no_history_append evs).
Proof.
  split.
  - destruct (keeps_spawn_and_loop fuel) as [Hs _].
    destruct (Hs args definition configuration signature w) as (_ & Hh & Hev).
    by split.
  - simpl. rewrite spawn_tunnel_run.
    destruct (keeps_spawn_and_loop fuel) as [Hs _].
    destruct (Hs (forwarding_args definition configuration) definition configuration
                (create_ssh_forwarding definition)
                (registered definition configuration w)) as (_ & Hh & evs & Ht & HF).
    split.
    + rewrite Hh. simpl. rewrite starts_history_append_insert.
      unfold starts_history_of. by destruct (_starts_history (self w) !! definition).
    + exists evs. split; [|done]. rewrite Ht. simpl. by rewrite <- app_assoc.
Qed.

(* ================================================================== *)
(** ** Clean-up and the termination check of [spawn_ssh_process] *)
(* ================================================================== *)

(** Events that launch, probe, wait for or kill nothing. *)
Definition quiet_event (e : event) : Prop :=
  match e with
  | EvLog Debug _ | EvPoll _ _ | EvProcsRemove _ | EvLockAcquire
  | EvLockRelease | EvSpawnSshProcess _ | EvReadFlag _ => True
  | _ => False
  end.

(** [w'] is [w] with some handles dropped from the process list, and with
    quiet events added to the trace. *)
Definition tidied (w w' : World) : Prop :=
  env w' = env w /\ os_procs w' = os_procs w /\ clock w' = clock w /\
  alive_calls w' = alive_calls w /\ probe_calls w' = probe_calls w /\
  popen_calls w' = popen_calls w /\
  is_terminating (self w') = is_terminating (self w) /\
  _signatures (self w') = _signatures (self w) /\
  _starts_history (self w') = _starts_history (self w) /\
  sublist (_procs (self w')) (_procs (self w)) /\
  exists evs, trace w' = (trace w ++ evs)%list /\ Forall quiet_event evs.

Lemma tidied_refl w : tidied w w.
Proof. repeat split; try done. exists []. by rewrite app_nil_r. Qed.

Lemma tidied_trans a b c : tidied a b -> tidied b c -> tidied a c.
Proof.
  intros (?&?&?&?&?&?&?&?&?&Hs1&e1&Ht1&HF1) (?&?&?&?&?&?&?&?&?&Hs2&e2&Ht2&HF2).
  repeat split; try congruence.
  - by etrans.
  - exists (e1 ++ e2)%list. split; [by rewrite Ht2, Ht1, app_assoc | by apply Forall_app].
Qed.

Lemma tidied_record e w : quiet_event e -> tidied w (record e w).
Proof.
  intros He. destruct_world w. repeat split; try done.
  exists [e]. split; [done | by constructor].
Qed.

Lemma list_remove_sublist x l l' : list_remove x l = Some l' -> sublist l' l.
Proof.
  revert l'. induction l as [|y l IH]; intros l'; simpl; [done|].
  destruct (decide (x = y)) as [->|Hne].
  - intros [= ->]. by apply sublist_cons.
  - destruct (list_remove x l) as [l0|]; simpl; [|done].
    intros [= <-]. apply sublist_skip. by apply IH.
Qed.

(** [m] always returns, in a world related to the initial one. *)
Definition succeeds {A} (R : World -> World -> Prop) (m : M A) : Prop :=
  forall w, exists a w', m w = Ok a w' /\ R w w'.

Lemma succeeds_ret {A} (a : A) : succeeds tidied (mret a : M A).
Proof. intros w. exists a, w. split; [done | apply tidied_refl]. Qed.

Lemma succeeds_bind {A B} (m : M A) (k : A -> M B) :
  succeeds tidied m -> (forall a, succeeds tidied (k a)) ->
  succeeds tidied (m ≫= k).
Proof.
  intros Hm Hk w. destruct (Hm w) as (a & w1 & H1 & R1).
  destruct (Hk a w1) as (b & w2 & H2 & R2).
  exists b, w2. split; [by rewrite bind_run, H1 | by eapply tidied_trans].
Qed.

Lemma succeeds_emit e : quiet_event e -> succeeds tidied (emit e).
Proof. intros He w. exists tt, (record e w). split; [done | by apply tidied_record]. Qed.

Lemma succeeds_poll proc : succeeds tidied (Popen_poll_exited proc).
Proof. intros w. eexists _, _. split; [done | by apply tidied_record]. Qed.

Lemma succeeds_procs_remove proc : succeeds tidied (procs_remove proc).
Proof.
  intros w. unfold procs_remove.
  destruct (list_remove proc (_procs (self w))) as [l|] eqn:Hl.
  - eexists _, _. split; [done|]. destruct_world w. repeat split; try done.
    + by eapply list_remove_sublist.
    + eexists [_]. split; [done | by constructor].
  - eexists _, _. split; [done | apply tidied_refl].
Qed.

Lemma succeeds_clean_up_loop snapshot : succeeds tidied (_clean_up_loop snapshot).
Proof.
  induction snapshot as [|proc rest IH]; simpl.
  - apply succeeds_ret.
  - apply succeeds_bind; [by apply succeeds_emit | intros _].
    apply succeeds_bind; [apply succeeds_poll | intros exited].
    apply succeeds_bind; [|intros _; exact IH].
    destruct exited; [|apply succeeds_ret].
    apply succeeds_bind; [by apply succeeds_emit | intros _].
    apply succeeds_procs_remove.
Qed.

Lemma succeeds_locked_clean_up : succeeds tidied (with_lock _clean_up).
Proof.
  unfold with_lock. apply succeeds_bind; [by apply succeeds_emit | intros _].
  intros w. unfold finally, _clean_up. rewrite bind_run. simpl.
  destruct (succeeds_clean_up_loop (_procs (self w)) w) as ([] & w1 & -> & R1).
  eexists _, _. split; [done|].
  eapply tidied_trans; [exact R1 | by apply tidied_record].
Qed.

Lemma succeeds_enter_and_clean_up signature :
  succeeds tidied (emit (EvSpawnSshProcess signature);; with_lock _clean_up).
Proof.
  apply succeeds_bind; [by apply succeeds_emit | intros _].
  apply succeeds_locked_clean_up.
Qed.

(** The world in which [spawn_ssh_process] reads the termination flag at
    line 95: entered, handles cleaned up under the lock. *)
Definition at_termination_check (signature : string) (w : World) : World :=
  outcome_world
    ((emit (EvSpawnSshProcess signature);; with_lock _clean_up) w).

Lemma at_termination_check_tidied signature w :
  tidied w (at_termination_check signature w).
Proof.
  unfold at_termination_check.
  by destruct (succeeds_enter_and_clean_up signature w) as ([] & w1 & -> & R1).
Qed.

(** C9: when the termination flag is set at the check that follows the
    clean-up, [spawn_ssh_process] returns at once: the world it returns is
    the one of the check plus the read of the flag, and that world differs
    from the initial one only by handles dropped from the process list
    and by quiet events, so that no process was launched, no handle was
    appended and no monitoring was done. *)
Theorem spawn_ssh_process_returns_when_terminating (fuel : nat)
    (args signature : string) (definition : Forwarding)
    (configuration : HostTunnelDefinitions) (w : World) :
  is_terminating (self (at_termination_check signature w)) = true ->
  spawn_ssh_process (S fuel) args definition configuration signature w
  = Ok tt (record (EvReadFlag true) (at_termination_check signature w))
  /\ tidied w (record (EvReadFlag true) (at_termination_check signature w))
  /\ popen_calls (at_termination_check signature w) = popen_calls w
  /\ sublist (_procs (self (at_termination_check signature w))) (_procs (self w)).
Proof.
  intros Hflag.
  pose proof (at_termination_check_tidied signature w) as Ht.
  split; [|split; [|split]].
  - unfold at_termination_check in *. rewrite bind_run in Hflag |- *.
    cbn [spawn_ssh_process]. rewrite bind_run.
    change (emit (EvSpawnSshProcess signature) w)
      with (Ok tt (record (EvSpawnSshProcess signature) w)) in Hflag |- *.
    cbv beta iota in Hflag |- *. rewrite bind_run.
    destruct (succeeds_locked_clean_up (record (EvSpawnSshProcess signature) w))
      as ([] & w1 & H1 & _).
    rewrite H1 in Hflag |- *. simpl in Hflag. rewrite bind_run.
    unfold read_is_terminating. by rewrite Hflag.
  - eapply tidied_trans; [exact Ht | by apply tidied_record].
  - apply Ht.
  - apply Ht.
Qed.

Lemma trace_record (e : event) (w : World) :
  trace (record e w) = (trace w ++ [e])%list.
Proof. by destruct w. Qed.


(* ================================================================== *)
(** ** The cancellable sleep *)
(* ================================================================== *)

(** The events of one healthy monitoring pass after the sleep. *)
Definition healthy_pass (definition : Forwarding)
    (configuration : HostTunnelDefinitions) (signature : string) : list event :=
  [EvLog Debug (msg_running_checks signature);
   EvIsProcessAlive signature true;
   EvCheckTunnelAlive definition configuration true].

Lemma iteration_interval_zero_healthy definition configuration signature w :
  interval (validate definition) = 0 ->
  env_is_process_alive (env w) (alive_calls w) signature = true ->
  env_check_tunnel_alive (env w) (probe_calls w) definition configuration = true ->
  _tunnel_loop_iteration definition configuration signature w
  = Ok LoopContinue
      {| self := self w; env := env w; os_procs := os_procs w; clock := clock w;
         alive_calls := S (alive_calls w); probe_calls := S (probe_calls w);
         popen_calls := popen_calls w;
         trace := (trace w ++ healthy_pass definition configuration signature)%list |}.
Proof.
  intros Hint Halive Hprobe. destruct_world w.
  unfold _tunnel_loop_iteration, _carefully_sleep. rewrite Hint.
  change (Z.to_nat 0) with O. cbn [_carefully_sleep_ticks]. run_monad.
  unfold Validation_is_process_alive, Validation_check_tunnel_alive. run_monad.
  rewrite Halive. run_monad. rewrite Hprobe. run_monad.
  unfold healthy_pass. by rewrite <- !app_assoc.
Qed.

(** C10: with a check interval of 0 the cancellable sleep returns [True]
    in an unchanged world, so without reading the termination flag; a
    tunnel so configured, whose process and probe stay healthy, then never
    leaves its loop whatever the flag is: for every amount of fuel it is
    still running, having done one healthy pass per unit of fuel and no
    read of the flag. *)
Theorem carefully_sleep_zero_never_cancels (fuel : nat) (definition : Forwarding)
    (configuration : HostTunnelDefinitions) (signature args : string) (w : World) :
  interval (validate definition) = 0 ->
  (forall n, env_is_process_alive (env w) n signature = true) ->
  (forall n, env_check_tunnel_alive (env w) n definition configuration = true) ->
  _carefully_sleep (interval (validate definition)) w = Ok true w /\
  exists w',
    _tunnel_loop fuel definition configuration signature args w = OutOfFuel w' /\
    self w' = self w /\
    alive_calls w' = (alive_calls w + fuel)%nat /\
    trace w' = (trace w ++
                concat (replicate fuel
                          (healthy_pass definition configuration signature)))%list.
Proof.
  intros Hint Halive Hprobe. split; [by rewrite Hint|].
  revert w Halive Hprobe. induction fuel as [|fuel IH]; intros w Halive Hprobe.
  - exists w. simpl. repeat split; [lia | by rewrite app_nil_r].
  - cbn [_tunnel_loop]. rewrite bind_run.
    rewrite iteration_interval_zero_healthy by done.
    cbv beta iota.
    match goal with |- context [_tunnel_loop fuel _ _ _ _ ?w1] =>
      destruct (IH w1) as (w' & Hrun & Hself & Hcalls & Htrace); [done | done |]
    end.
    exists w'. split; [done|]. simpl in *. repeat split; [done | lia |].
    by rewrite Htrace, <- app_assoc.
Qed.

(** One second of cancellable sleep with the flag unset, [n] times. *)
Definition tick_events (n : nat) : list event :=
  concat (replicate n [EvReadFlag false; EvSleep 1]).

Lemma carefully_sleep_tick_awake n w :
  is_terminating (self w) = false ->
  _carefully_sleep_ticks (S n) w
  = _carefully_sleep_ticks n (slept 1 (record (EvSleep 1) (record (EvReadFlag false) w))).
Proof.
  intros Hflag. cbn [_carefully_sleep_ticks]. rewrite bind_run.
  unfold read_is_terminating. rewrite Hflag. reflexivity.
Qed.

Lemma carefully_sleep_tick_cancel n w :
  is_terminating (self w) = true ->
  _carefully_sleep_ticks (S n) w
  = Ok false (record (EvLog Debug msg_termination_signal) (record (EvReadFlag true) w)).
Proof.
  intros Hflag. cbn [_carefully_sleep_ticks]. rewrite bind_run.
  unfold read_is_terminating. rewrite Hflag. reflexivity.
Qed.

(** The world in which a cancellable sleep ends when the flag was set
    during one of its seconds but the last: only the clock, the process
    table, the flag and the trace have moved. *)
Definition cancelled_from (w w' : World) : Prop :=
  env w' = env w /\ alive_calls w' = alive_calls w /\
  probe_calls w' = probe_calls w /\ popen_calls w' = popen_calls w /\
  _procs (self w') = _procs (self w) /\
  is_terminating (self w') = true.

(** The world after one second of cancellable sleep with the flag unset. *)
Definition ticked (w : World) : World :=
  slept 1 (record (EvSleep 1) (record (EvReadFlag false) w)).

Lemma ticked_fields w :
  env (ticked w) = env w /\
  clock (ticked w) = clock w + 1 /\
  alive_calls (ticked w) = alive_calls w /\
  probe_calls (ticked w) = probe_calls w /\
  popen_calls (ticked w) = popen_calls w /\
  _procs (self (ticked w)) = _procs (self w) /\
  is_terminating (self (ticked w))
  = is_terminating (self w) || flag_set_during (env w) (clock w) 1 /\
  trace (ticked w) = (trace w ++ [EvReadFlag false; EvSleep 1])%list.
Proof. destruct_world w. repeat split. by rewrite <- app_assoc. Qed.

Lemma cancel_fields w :
  let w' := record (EvLog Debug msg_termination_signal) (record (EvReadFlag true) w) in
  env w' = env w /\ alive_calls w' = alive_calls w /\
  probe_calls w' = probe_calls w /\ popen_calls w' = popen_calls w /\
  self w' = self w /\
  trace w' = (trace w ++ [EvReadFlag true; EvLog Debug msg_termination_signal])%list.
Proof. destruct_world w. repeat split. by rewrite <- app_assoc. Qed.

Lemma carefully_sleep_ticks_cancelled n w tick :
  is_terminating (self w) = false ->
  env_terminate_tick (env w) = Some tick ->
  clock w <= tick ->
  (Z.to_nat (tick - clock w) + 2 <= n)%nat ->
  exists w',
    _carefully_sleep_ticks n w = Ok false w' /\
    cancelled_from w w' /\
    trace w' = (trace w ++ tick_events (S (Z.to_nat (tick - clock w)))
                ++ [EvReadFlag true; EvLog Debug msg_termination_signal])%list.
Proof.
  revert w. induction n as [|n IH]; intros w Hflag Htick Hle Hn; [lia|].
  rewrite carefully_sleep_tick_awake by done. fold (ticked w).
  destruct (ticked_fields w) as (He1 & Hc1 & Ha1 & Hp1 & Ho1 & Hpr1 & Hf1 & Htr1).
  unfold flag_set_during in Hf1. rewrite Htick, Hflag in Hf1. simpl in Hf1.
  destruct (decide (tick = clock w)) as [Heq|Hne].
  - assert (is_terminating (self (ticked w)) = true) as Hflag1.
    { rewrite Hf1. apply andb_true_iff.
      split; [apply Z.leb_le | apply Z.ltb_lt]; lia. }
    destruct n as [|n]; [lia|].
    rewrite carefully_sleep_tick_cancel by done.
    destruct (cancel_fields (ticked w)) as (He2 & Ha2 & Hp2 & Ho2 & Hs2 & Htr2).
    eexists. split; [done|]. split.
    + unfold cancelled_from. rewrite He2, Ha2, Hp2, Ho2, Hs2. by repeat split.
    + rewrite Htr2, Htr1, Heq, Z.sub_diag. simpl.
      by rewrite <- !app_assoc.
  - assert (is_terminating (self (ticked w)) = false) as Hflag1.
    { rewrite Hf1. apply andb_false_iff. right. apply Z.ltb_ge. lia. }
    destruct (IH (ticked w)) as (w' & Hrun & Hc & Htr); try done.
    + by rewrite He1.
    + lia.
    + lia.
    + exists w'. split; [done|]. split.
      * destruct Hc as (?&?&?&?&?&?). unfold cancelled_from.
        repeat split; congruence.
      * rewrite Htr, Htr1.
        replace (Z.to_nat (tick - clock w))
          with (S (Z.to_nat (tick - clock (ticked w)))) by lia.
        unfold tick_events. simpl. by rewrite <- !app_assoc.
Qed.

(** C5 (amended): when the termination flag is set during a second of the
    cancellable sleep other than its last one, the supervisor returns
    from [_tunnel_loop]: it has run no liveness check, no health probe and
    launched nothing, and its trace shows only the ticks of the sleep, the
    read of the set flag and the debug message. *)
Theorem tunnel_loop_cancelled_mid_sleep (fuel : nat) (definition : Forwarding)
    (configuration : HostTunnelDefinitions) (signature args : string)
    (w : World) (tick : Z) :
  is_terminating (self w) = false ->
  env_terminate_tick (env w) = Some tick ->
  clock w <= tick < clock w + interval (validate definition) - 1 ->
  exists w',
    _tunnel_loop (S fuel) definition configuration signature args w = Ok tt w' /\
    is_terminating (self w') = true /\
    alive_calls w' = alive_calls w /\
    probe_calls w' = probe_calls w /\
    popen_calls w' = popen_calls w /\
    trace w' = (trace w ++ tick_events (S (Z.to_nat (tick - clock w)))
                ++ [EvReadFlag true; EvLog Debug msg_termination_signal])%list.
Proof.
  intros Hflag Htick [Hlo Hhi].
  destruct (carefully_sleep_ticks_cancelled
              (Z.to_nat (interval (validate definition))) w tick)
    as (w' & Hrun & (He & Ha & Hp & Ho & _ & Hf) & Htr); try done; [lia|].
  exists w'. split; [|by repeat split].
  cbn [_tunnel_loop]. rewrite bind_run.
  unfold _tunnel_loop_iteration, _carefully_sleep. rewrite bind_run, Hrun.
  reflexivity.
Qed.

(* ================================================================== *)
(** ** A failed health check *)
(* ================================================================== *)

(** The world after lines 169-173: the process found by signature, if any,
    is gone. *)
Definition killed (signature : string) (w : World) : World :=
  match _find_process_by_signature signature (os_procs w) with
  | Some proc => record (EvProcessKill proc) (with_os_procs (remove_pid (pid proc)) w)
  | None => w
  end.

Lemma running_elem (proc : OsProc) (table : list OsProc) :
  proc ∈ table -> running (pid proc) table = true.
Proof.
  intros Hin. unfold running. apply bool_decide_eq_true.
  by apply list_elem_of_fmap_2.
Qed.

(** Killing the process found by signature never raises: a process that is
    found is running, and no process found is not an error. *)
Lemma kill_existing_run signature w :
  kill_existing signature w = Ok tt (killed signature w).
Proof.
  unfold kill_existing, killed, process_iter. rewrite bind_run. simpl.
  destruct (_find_process_by_signature signature (os_procs w)) as [proc|] eqn:Hf;
    [|done].
  unfold Process_kill. by rewrite (running_elem proc) by by eapply find_some_elem.
Qed.

(** The events of a monitoring pass up to the end of the grace wait that
    follows a failed probe. *)
Definition failed_pass (definition : Forwarding)
    (configuration : HostTunnelDefinitions) (signature : string) : list event :=
  [EvLog Debug (msg_running_checks signature);
   EvIsProcessAlive signature true;
   EvCheckTunnelAlive definition configuration false;
   EvLog Error (msg_health_check_failed definition signature);
   EvSleep (wait_time_before_restart (validate definition))].

(** The kill of lines 169-173, as events, on a process table. *)
Definition kill_events (definition : Forwarding) (signature : string)
    (table : list OsProc) : list event :=
  if kill_existing_tunnel_on_failure (validate definition) then
    match _find_process_by_signature signature table with
    | Some proc => [EvProcessKill proc]
    | None => []
    end
  else [].

(** The process table after the kill of lines 169-173. *)
Definition table_after_kill (definition : Forwarding) (signature : string)
    (table : list OsProc) : list OsProc :=
  if kill_existing_tunnel_on_failure (validate definition) then
    match _find_process_by_signature signature table with
    | Some proc => remove_pid (pid proc) table
    | None => table
    end
  else table.

(** How [_tunnel_loop] goes on after an iteration. *)
Definition after_iteration (fuel : nat) (definition : Forwarding)
    (configuration : HostTunnelDefinitions) (signature args : string)
    (step : LoopStep) (w : World) : Outcome unit :=
  match step with
  | LoopReturn => Ok tt w
  | LoopContinue => _tunnel_loop fuel definition configuration signature args w
  | LoopRelaunch => spawn_ssh_process fuel args definition configuration signature w
  end.

Lemma tunnel_loop_step fuel definition configuration signature args w step w' :
  _tunnel_loop_iteration definition configuration signature w = Ok step w' ->
  _tunnel_loop (S fuel) definition configuration signature args w
  = after_iteration fuel definition configuration signature args step w'.
Proof.
  intros H. cbn [_tunnel_loop]. rewrite bind_run, H. by destruct step.
Qed.

Lemma iteration_failed_probe definition configuration signature w w1 :
  _carefully_sleep (interval (validate definition)) w = Ok true w1 ->
  env_is_process_alive (env w1) (alive_calls w1) signature = true ->
  env_check_tunnel_alive (env w1) (probe_calls w1) definition configuration = false ->
  0 <= wait_time_before_restart (validate definition) ->
  let wait := wait_time_before_restart (validate definition) in
  let second :=
    env_check_tunnel_alive (env w1) (S (probe_calls w1)) definition configuration in
  let table := env_sleep (env w1) (clock w1) wait (os_procs w1) in
  exists w2 step,
    _tunnel_loop_iteration definition configuration signature w = Ok step w2 /\
    env w2 = env w1 /\
    self w2 = set_is_terminating
                (is_terminating (self w1) || flag_set_during (env w1) (clock w1) wait)
                (self w1) /\
    clock w2 = clock w1 + wait /\
    alive_calls w2 = S (alive_calls w1) /\
    popen_calls w2 = popen_calls w1 /\
    if wait =? 0 then
      step = LoopRelaunch /\
      probe_calls w2 = S (probe_calls w1) /\
      os_procs w2 = table_after_kill definition signature table /\
      trace w2 = (trace w1 ++ failed_pass definition configuration signature
                  ++ kill_events definition signature table)%list
    else
      probe_calls w2 = S (S (probe_calls w1)) /\
      if second then
        step = LoopContinue /\
        os_procs w2 = table /\
        trace w2 = (trace w1 ++ failed_pass definition configuration signature
                    ++ [EvCheckTunnelAlive definition configuration true;
                        EvLog Info (msg_recovered signature)])%list
      else
        step = LoopRelaunch /\
        os_procs w2 = table_after_kill definition signature table /\
        trace w2 = (trace w1 ++ failed_pass definition configuration signature
                    ++ [EvCheckTunnelAlive definition configuration false]
                    ++ kill_events definition signature table)%list.
Proof.
  intros Hsleep Halive Hprobe Hwait. cbv zeta.
  unfold _tunnel_loop_iteration. rewrite bind_run, Hsleep. cbv beta iota.
  clear Hsleep. destruct_world w1.
  run_monad. unfold Validation_is_process_alive. run_monad. rewrite Halive.
  run_monad. unfold Validation_check_tunnel_alive at 1. run_monad. rewrite Hprobe.
  run_monad. unfold sleep, failed_pass, kill_events, table_after_kill.
  set (wait := wait_time_before_restart (validate definition)) in *.
  destruct (Z.ltb_spec wait 0) as [?|_]; [lia|].
  unfold slept. run_monad.
  destruct (wait =? 0) eqn:Hz.
  - run_monad.
    destruct (kill_existing_tunnel_on_failure (validate definition)).
    + rewrite kill_existing_run. unfold killed. simpl os_procs.
      destruct (_find_process_by_signature signature _) as [proc|];
        eexists _, _; (split; [reflexivity|]); simpl; repeat split;
        by rewrite <- ?app_assoc.
    + run_monad. eexists _, _. split; [reflexivity|]. simpl. repeat split.
      by rewrite <- ?app_assoc.
  - unfold Validation_check_tunnel_alive. run_monad.
    destruct (env_check_tunnel_alive _ (S _) definition configuration).
    + run_monad. eexists _, _. split; [reflexivity|]. simpl. repeat split.
      by rewrite <- ?app_assoc.
    + run_monad.
      destruct (kill_existing_tunnel_on_failure (validate definition)).
      * rewrite kill_existing_run. unfold killed. simpl os_procs.
        destruct (_find_process_by_signature signature _) as [proc|];
          eexists _, _; (split; [reflexivity|]); simpl; repeat split;
          by rewrite <- ?app_assoc.
      * run_monad. eexists _, _. split; [reflexivity|]. simpl. repeat split.
        by rewrite <- ?app_assoc.
Qed.

(** C3 (amended): when the probe fails in a monitoring iteration, the
    supervisor sleeps the configured wait.  When that wait is not 0 it then
    runs the probe once more, exactly once: if the probe passes it logs the
    recovery and the loop continues without relaunch; if it fails it goes
    on to the kill and the relaunch.  When the wait is 0 the probe is not
    run again and the supervisor goes on to the kill and the relaunch at
    once. *)
Theorem failed_probe_grace_recheck (fuel : nat) (definition : Forwarding)
    (configuration : HostTunnelDefinitions) (signature args : string)
    (w w1 : World) :
  _carefully_sleep (interval (validate definition)) w = Ok true w1 ->
  env_is_process_alive (env w1) (alive_calls w1) signature = true ->
  env_check_tunnel_alive (env w1) (probe_calls w1) definition configuration = false ->
  0 <= wait_time_before_restart (validate definition) ->
  let wait := wait_time_before_restart (validate definition) in
  let second :=
    env_check_tunnel_alive (env w1) (S (probe_calls w1)) definition configuration in
  let table := env_sleep (env w1) (clock w1) wait (os_procs w1) in
  exists w2 step,
    _tunnel_loop_iteration definition configuration signature w = Ok step w2 /\
    _tunnel_loop (S fuel) definition configuration signature args w
    = after_iteration fuel definition configuration signature args step w2 /\
    clock w2 = clock w1 + wait /\
    popen_calls w2 = popen_calls w1 /\
    if wait =? 0 then
      step = LoopRelaunch /\
      probe_calls w2 = S (probe_calls w1) /\
      trace w2 = (trace w1 ++ failed_pass definition configuration signature
                  ++ kill_events definition signature table)%list
    else
      probe_calls w2 = S (S (probe_calls w1)) /\
      if second then
        step = LoopContinue /\
        trace w2 = (trace w1 ++ failed_pass definition configuration signature
                    ++ [EvCheckTunnelAlive definition configuration true;
                        EvLog Info (msg_recovered signature)])%list
      else
        step = LoopRelaunch /\
        trace w2 = (trace w1 ++ failed_pass definition configuration signature
                    ++ [EvCheckTunnelAlive definition configuration false]
                    ++ kill_events definition signature table)%list.
Proof.
  intros Hsleep Halive Hprobe Hwait. cbv zeta.
  destruct (iteration_failed_probe definition configuration signature w w1)
    as (w2 & step & Hit & _ & _ & Hclock & _ & Hpopen & Hcases); try done.
  exists w2, step. split; [done|]. split; [by apply tunnel_loop_step|].
  split; [done|]. split; [done|]. cbv zeta in Hcases.
  destruct (wait_time_before_restart (validate definition) =? 0).
  - destruct Hcases as (? & ? & _ & ?). by repeat split.
  - destruct Hcases as (? & Hcases). split; [done|].
    destruct (env_check_tunnel_alive (env w1) (S (probe_calls w1)) definition
                configuration).
    + destruct Hcases as (? & _ & ?). by split.
    + destruct Hcases as (? & _ & ?). by split.
Qed.

(** C2 (amended): with the kill-on-failure flag set and a probe that fails
    before the grace wait and (when it is run again) after it, one
    monitoring iteration kills the process found by signature, if there
    is one, and calls the launch/verify routine; that relaunch, and
    everything the supervisor does after it, leaves the starts history of
    every definition as it was. *)
Theorem failed_probe_kills_and_relaunches (fuel : nat) (definition : Forwarding)
    (configuration : HostTunnelDefinitions) (signature args : string)
    (w w1 : World) :
  kill_existing_tunnel_on_failure (validate definition) = true ->
  _carefully_sleep (interval (validate definition)) w = Ok true w1 ->
  env_is_process_alive (env w1) (alive_calls w1) signature = true ->
  env_check_tunnel_alive (env w1) (probe_calls w1) definition configuration = false ->
  0 <= wait_time_before_restart (validate definition) ->
  (wait_time_before_restart (validate definition) = 0 \/
   env_check_tunnel_alive (env w1) (S (probe_calls w1)) definition configuration
   = false) ->
  let table := env_sleep (env w1) (clock w1)
                 (wait_time_before_restart (validate definition)) (os_procs w1) in
  exists w2,
    _tunnel_loop_iteration definition configuration signature w
    = Ok LoopRelaunch w2 /\
    os_procs w2 =
      match _find_process_by_signature signature table with
      | Some proc => remove_pid (pid proc) table
      | None => table
      end /\
    (exists evs,
       trace w2 =
         (trace w1 ++ evs ++
          match _find_process_by_signature signature table with
          | Some proc => [EvProcessKill proc]
          | None => []
          end)%list) /\
    _tunnel_loop (S fuel) definition configuration signature args w
    = spawn_ssh_process fuel args definition configuration signature w2 /\
    _starts_history
      (self (outcome_world
               (_tunnel_loop (S fuel) definition configuration signature args w)))
    = _starts_history (self w).
Proof.
  intros Hkill Hsleep Halive Hprobe Hwait Hsecond. cbv zeta.
  destruct (iteration_failed_probe definition configuration signature w w1)
    as (w2 & step & Hit & _ & _ & _ & _ & _ & Hcases); try done.
  cbv zeta in Hcases. unfold kill_events, table_after_kill in Hcases.
  rewrite Hkill in Hcases.
  assert (step = LoopRelaunch /\
          os_procs w2 =
            match _find_process_by_signature signature
                    (env_sleep (env w1) (clock w1)
                       (wait_time_before_restart (validate definition))
                       (os_procs w1)) with
            | Some proc =>
                remove_pid (pid proc)
                  (env_sleep (env w1) (clock w1)
                     (wait_time_before_restart (validate definition))
                     (os_procs w1))
            | None =>
                env_sleep (env w1) (clock w1)
                  (wait_time_before_restart (validate definition)) (os_procs w1)
            end /\
          exists evs,
            trace w2 =
              (trace w1 ++ evs ++
               match _find_process_by_signature signature
                       (env_sleep (env w1) (clock w1)
                          (wait_time_before_restart (validate definition))
                          (os_procs w1)) with
               | Some proc => [EvProcessKill proc]
               | None => []
               end)%list) as (-> & Hos & Hev).
  { destruct (wait_time_before_restart (validate definition) =? 0) eqn:Hz.
    - destruct Hcases as (? & _ & ? & Htr). repeat split; try done.
      eexists. exact Htr.
    - destruct Hsecond as [H0|Hs]; [apply Z.eqb_neq in Hz; lia|].
      rewrite Hs in Hcases. destruct Hcases as (_ & ? & ? & Htr).
      repeat split; try done.
      eexists. rewrite Htr. by rewrite (app_assoc (failed_pass _ _ _)). }
  exists w2. split; [done|]. split; [done|]. split; [done|].
  split; [by rewrite (tunnel_loop_step _ _ _ _ _ _ _ _ Hit)|].
  destruct (keeps_spawn_and_loop (S fuel)) as [_ Hl].
  by destruct (Hl definition configuration signature args w) as (_ & Hh & _).
Qed.

(* ================================================================== *)
(** ** Shutdown *)
(* ================================================================== *)






Lemma record_fields (e : event) (w : World) :
  self (record e w) = self w /\ os_procs (record e w) = os_procs w.
Proof. by destruct_world w. Qed.







(* ================================================================== *)
(** ** Concrete runs *)
(* ================================================================== *)

Module Examples.

(** A local forwarding checked every second, with no grace wait. *)
Definition tunnel : Forwarding :=
  mkForwarding "-L 8080:localhost:80" (mkValidation "tcp" 1 0 true).

(** The same forwarding checked every five seconds, with a grace wait. *)
Definition patient_tunnel : Forwarding :=
  mkForwarding "-L 8080:localhost:80" (mkValidation "tcp" 5 3 true).

(** The same forwarding with a check interval of 0. *)
Definition eager_tunnel : Forwarding :=
  mkForwarding "-L 8080:localhost:80" (mkValidation "tcp" 0 0 true).

Definition host : HostTunnelDefinitions :=
  mkHost "deploy" "gateway" 22 (Some "/keys/id_rsa") (Some "secret") None.

(** The [n]-th launch adds one [autossh] process, of pid [n]. *)
Definition launch (n : nat) (cmd : string) (table : list OsProc)
  : Z * list OsProc :=
  (Z.of_nat n, (table ++ [mkOsProc (Z.of_nat n) "autossh" ["autossh"; cmd]])%list).

(** An environment in which processes stay alive, given the answers of
    the probe and the second in which the flag is set. *)
Definition environment (probe : nat -> bool) (tick : option Z) : Env :=
  {| env_is_process_alive := fun _ _ => true;
     env_check_tunnel_alive := fun n _ _ => probe n;
     env_terminate_tick := tick;
     env_today := fun _ => 19000;
     env_popen := launch;
     env_sleep := fun _ _ table => table |}.

Definition failing : Env := environment (fun _ => false) None.
Definition healthy : Env := environment (fun _ => true) None.
Definition blip : Env :=
  environment (fun n => match n with O => false | S _ => true end) None.
Definition stopping (tick : Z) : Env := environment (fun _ => true) (Some tick).

Definition fresh (e : Env) : World :=
  {| self := __init__; env := e; os_procs := []; clock := 0;
     alive_calls := 0; probe_calls := 0; popen_calls := 0; trace := [] |}.

(** The world of a supervisor that has spawned [definition] and is about
    to start monitoring it. *)
Definition monitoring (definition : Forwarding) (e : Env) : World :=
  outcome_world (spawn_tunnel 1 definition host (fresh e)).

Definition signature : string := create_ssh_forwarding tunnel.
Definition args : string := forwarding_args tunnel host.

Example monitoring_has_one_handle :
  _procs (self (monitoring tunnel failing)) = [mkPopen 0 0] /\
  starts_history_of tunnel (self (monitoring tunnel failing)) = [19000] /\
  clock (monitoring tunnel failing) = 10.
Proof. by vm_compute. Qed.

(** The command of the example, and its place in the trace of the spawn. *)
Example launch_cmd_of_tunnel :
  launch_cmd args host
  = "sshpass -p " +:+ PyStr.dq +:+ "secret" +:+ PyStr.dq
    +:+ " autossh -M 0 -N -f -o 'PubkeyAuthentication=yes' -o 'PasswordAuthentication=no' -nT  -i /keys/id_rsa -L 8080:localhost:80 -p 22 deploy@gateway".
Proof. by vm_compute. Qed.

Example spawn_tunnel_launches_cmd :
  trace (monitoring tunnel healthy) !! 10%nat
  = Some (EvPopen (launch_cmd (forwarding_args tunnel host) host) (mkPopen 0 0)).
Proof. by vm_compute. Qed.

(** C1, witness: a fresh manager asked about one definition. *)
Lemma get_stats_never_spawned_witness :
  exists st,
    status (get_stats [tunnel] (fresh healthy)) !! tunnel = Some st /\
    st_starts_history st = [] /\
    restarts_count st = 1 /\
    Z.max (Z.of_nat (length (st_starts_history st)) - 1) 0 = 0.
Proof.
  apply (get_stats_never_spawned [tunnel] tunnel (fresh healthy)).
  - apply list_elem_of_here.
  - vm_compute; reflexivity.
Defined.

(** C2, counterexample: kill-on-failure is set and the probe always
    fails; the monitoring iteration kills and relaunches (a second
    process is launched), and the starts history still has its one
    entry. *)
Lemma relaunch_leaves_history_counterexample :
  let w := monitoring tunnel failing in
  let w' := outcome_world (_tunnel_loop 2 tunnel host signature args w) in
  kill_existing_tunnel_on_failure (validate tunnel) = true /\
  popen_calls w = 1%nat /\ popen_calls w' = 2%nat /\
  os_procs w = [mkOsProc 0 "autossh" ["autossh"; launch_cmd args host]] /\
  os_procs w' = [mkOsProc 1 "autossh" ["autossh"; launch_cmd args host]] /\
  starts_history_of tunnel (self w) = [19000] /\
  starts_history_of tunnel (self w') = [19000] /\
  length (starts_history_of tunnel (self w'))
  <> S (length (starts_history_of tunnel (self w))).
Proof. vm_compute. repeat split; discriminate. Qed.

(** C2, witness. *)
Lemma failed_probe_kills_and_relaunches_witness :
  exists w2,
    _tunnel_loop_iteration tunnel host signature (monitoring tunnel failing)
    = Ok LoopRelaunch w2 /\
    _starts_history
      (self (outcome_world
               (_tunnel_loop 2 tunnel host signature args
                  (monitoring tunnel failing))))
    = _starts_history (self (monitoring tunnel failing)).
Proof.
  destruct (failed_probe_kills_and_relaunches 1 tunnel host signature args
              (monitoring tunnel failing)
              (outcome_world (_carefully_sleep 1 (monitoring tunnel failing))))
    as (w2 & Hit & _ & _ & _ & Hh).
  - vm_compute; reflexivity.
  - vm_compute; reflexivity.
  - vm_compute; reflexivity.
  - vm_compute; reflexivity.
  - simpl. lia.
  - left. reflexivity.
  - exists w2. split; [exact Hit | exact Hh].
Defined.

(** C3, counterexample: with a wait of 0 the probe fails once and would
    pass if it were run again; it is not run again, and the iteration
    ends in a relaunch. *)
Lemma zero_wait_skips_recheck_counterexample :
  let w := monitoring tunnel blip in
  exists w2,
    wait_time_before_restart (validate tunnel) = 0 /\
    env_check_tunnel_alive (env w) (probe_calls w) tunnel host = false /\
    env_check_tunnel_alive (env w) (S (probe_calls w)) tunnel host = true /\
    _tunnel_loop_iteration tunnel host signature w = Ok LoopRelaunch w2 /\
    probe_calls w2 = S (probe_calls w) /\
    popen_calls (outcome_world (_tunnel_loop 2 tunnel host signature args w))
    = S (popen_calls w).
Proof. eexists. vm_compute. repeat split. Qed.

(** C3, witness: a wait of 3 seconds and a probe that fails once. *)
Lemma failed_probe_grace_recheck_witness :
  exists w2,
    _tunnel_loop_iteration patient_tunnel host signature
      (monitoring patient_tunnel blip) = Ok LoopContinue w2 /\
    probe_calls w2 = 2%nat.
Proof.
  destruct (failed_probe_grace_recheck 1 patient_tunnel host signature args
              (monitoring patient_tunnel blip)
              (outcome_world
                 (_carefully_sleep 5 (monitoring patient_tunnel blip))))
    as (w2 & step & Hit & _ & _ & _ & Hcases).
  - vm_compute; reflexivity.
  - vm_compute; reflexivity.
  - vm_compute; reflexivity.
  - simpl. lia.
  - vm_compute in Hcases. destruct Hcases as (Hp & -> & _).
    exists w2. split; [exact Hit | exact Hp].
Defined.



(** C5, counterexample: the flag is set during the only second of the
    sleep; the sleep returns [True] and the supervisor runs the liveness
    check and the health probe. *)
Lemma flag_set_in_last_tick_counterexample :
  let w := monitoring tunnel (stopping 10) in
  exists w1 w2,
    is_terminating (self w) = false /\
    _carefully_sleep (interval (validate tunnel)) w = Ok true w1 /\
    is_terminating (self w1) = true /\
    _tunnel_loop_iteration tunnel host signature w = Ok LoopContinue w2 /\
    alive_calls w2 = S (alive_calls w) /\
    probe_calls w2 = S (probe_calls w).
Proof. eexists _, _. vm_compute. repeat split. Qed.

(** C5, witness: the flag is set in the third of five seconds. *)
Lemma tunnel_loop_cancelled_mid_sleep_witness :
  exists w',
    _tunnel_loop 1 patient_tunnel host signature args
      (monitoring patient_tunnel (stopping 12)) = Ok tt w' /\
    alive_calls w' = alive_calls (monitoring patient_tunnel (stopping 12)) /\
    probe_calls w' = probe_calls (monitoring patient_tunnel (stopping 12)).
Proof.
  destruct (tunnel_loop_cancelled_mid_sleep 0 patient_tunnel host signature args
              (monitoring patient_tunnel (stopping 12)) 12)
    as (w' & Hrun & _ & Ha & Hp & _).
  - vm_compute; reflexivity.
  - vm_compute; reflexivity.
  - assert (clock (monitoring patient_tunnel (stopping 12)) = 10) as ->
      by (vm_compute; reflexivity).
    simpl. lia.
  - exists w'. split; [exact Hrun | split; [exact Ha | exact Hp]].
Defined.

(** C9, witness: a relaunch attempted after shutdown. *)
Lemma spawn_ssh_process_returns_when_terminating_witness :
  let w := outcome_world (close_all_tunnels (monitoring tunnel healthy)) in
  spawn_ssh_process 1 args tunnel host signature w
  = Ok tt (record (EvReadFlag true) (at_termination_check signature w)) /\
  popen_calls (at_termination_check signature w) = popen_calls w.
Proof.
  destruct (spawn_ssh_process_returns_when_terminating 0 args signature tunnel
              host (outcome_world (close_all_tunnels (monitoring tunnel healthy))))
    as (Hrun & _ & Hp & _).
  - vm_compute; reflexivity.
  - split; [exact Hrun | exact Hp].
Defined.

(** C10, witness: interval 0, the flag already set. *)
Lemma carefully_sleep_zero_never_cancels_witness :
  let w := outcome_world (close_all_tunnels (monitoring eager_tunnel healthy)) in
  is_terminating (self w) = true /\
  _carefully_sleep (interval (validate eager_tunnel)) w = Ok true w /\
  exists w',
    _tunnel_loop 3 eager_tunnel host signature args w = OutOfFuel w' /\
    alive_calls w' = (alive_calls w + 3)%nat.
Proof.
  split; [vm_compute; reflexivity|].
  destruct (carefully_sleep_zero_never_cancels 3 eager_tunnel host signature args
              (outcome_world (close_all_tunnels (monitoring eager_tunnel healthy))))
    as (Hsleep & w' & Hrun & _ & Ha & _).
  - vm_compute; reflexivity.
  - intros n. vm_compute; reflexivity.
  - intros n. vm_compute; reflexivity.
  - split; [exact Hsleep|]. exists w'. split; [exact Hrun | exact Ha].
Defined.

End Examples.


(* ================================================================== *)
(** ** What [_clean_up] leaves in the process list *)
(* ================================================================== *)

(** The handle's child is still in the process table. *)
Definition still_running (table : list OsProc) (proc : Popen) : Prop :=
  running (popen_pid proc) table = true.

#[global] Instance still_running_dec table proc : Decision (still_running table proc).
Proof. unfold still_running. apply _. Defined.

Lemma filter_ext_elem {A} (P Q : A -> Prop) `{!forall x, Decision (P x)}
    `{!forall x, Decision (Q x)} (l : list A) :
  (forall x, x ∈ l -> (P x <-> Q x)) -> filter P l = filter Q l.
Proof.
  induction l as [|a l IH]; intros Hall; [done|].
  rewrite !filter_cons.
  rewrite IH by (intros x Hx; apply Hall; by apply list_elem_of_further).
  destruct (decide (P a)) as [HP|HP], (decide (Q a)) as [HQ|HQ]; try done.
  - exfalso. apply HQ, (Hall a); [apply list_elem_of_here | done].
  - exfalso. apply HP, (Hall a); [apply list_elem_of_here | done].
Qed.


Lemma filter_all {A} (P : A -> Prop) `{!forall x, Decision (P x)} (l : list A) :
  (forall x, x ∈ l -> P x) -> filter P l = l.
Proof.
  induction l as [|a l IH]; intros Hall; [done|].
  rewrite filter_cons_True by (apply Hall, list_elem_of_here).
  rewrite IH; [done|]. intros x Hx. apply Hall. by apply list_elem_of_further.
Qed.

Lemma list_remove_absent (x : Popen) (l : list Popen) :
  x ∉ l -> list_remove x l = None.
Proof.
  induction l as [|y l IH]; simpl; [done|]. intros Hx.
  apply not_elem_of_cons in Hx as [Hne Hx].
  destruct (decide (x = y)); [done|]. by rewrite IH.
Qed.

Lemma filter_other_absent (x : Popen) (l : list Popen) :
  x ∉ l -> filter (fun h => h <> x) l = l.
Proof.
  induction l as [|y l IH]; [done|]. intros Hx.
  apply not_elem_of_cons in Hx as [Hne Hx].
  rewrite filter_cons_True by congruence. by rewrite IH.
Qed.

(** On a list without repetition, [list.remove(x)] drops every [x]. *)
Lemma list_remove_filter (x : Popen) (l : list Popen) :
  NoDup l -> x ∈ l -> list_remove x l = Some (filter (fun h => h <> x) l).
Proof.
  induction l as [|y l IH]; intros Hnd Hx; [by apply elem_of_nil in Hx|].
  apply NoDup_cons in Hnd as [Hy Hnd]. simpl.
  destruct (decide (x = y)) as [->|Hne].
  - rewrite filter_cons_False by (intros H; by apply H).
    by rewrite filter_other_absent.
  - apply elem_of_cons in Hx as [?|Hx]; [done|].
    rewrite IH by done. simpl. by rewrite filter_cons_True by congruence.
Qed.

Lemma procs_remove_run proc w :
  NoDup (_procs (self w)) ->
  exists w', procs_remove proc w = Ok tt w' /\
             _procs (self w') = filter (fun h => h <> proc) (_procs (self w)) /\
             os_procs w' = os_procs w.
Proof.
  intros Hnd. unfold procs_remove.
  destruct (decide (proc ∈ _procs (self w))) as [Hin|Hout].
  - rewrite list_remove_filter by done. eexists. split; [done|].
    by destruct_world w.
  - rewrite list_remove_absent by done. exists w.
    by rewrite filter_other_absent.
Qed.

Lemma clean_up_loop_filter snapshot w :
  NoDup (_procs (self w)) ->
  exists w',
    _clean_up_loop snapshot w = Ok tt w' /\
    os_procs w' = os_procs w /\
    _procs (self w')
    = filter (fun h => h ∉ snapshot \/ still_running (os_procs w) h)
        (_procs (self w)).
Proof.
  revert w. induction snapshot as [|proc rest IH]; intros w Hnd.
  - exists w. split; [done|]. split; [done|].
    symmetry. apply filter_all. intros h _. left. apply not_elem_of_nil.
  - cbn [_clean_up_loop]. rewrite bind_run. unfold Logger_debug at 1, emit.
    cbv beta iota. rewrite bind_run. unfold Popen_poll_exited. cbv beta iota zeta.
    set (msg := "clean_up: Checking if process pid=" +:+ _).
    destruct (record_fields (EvLog Debug msg) w) as [Hs0 Ho0].
    rewrite Ho0.
    set (w1 := record (EvPoll proc _) (record (EvLog Debug msg) w)).
    assert (self w1 = self w /\ os_procs w1 = os_procs w) as [Hs1 Ho1].
    { subst w1. destruct (record_fields (EvPoll proc
        (negb (running (popen_pid proc) (os_procs w)))) (record (EvLog Debug msg) w))
        as [-> ->]. by split. }
    rewrite bind_run.
    destruct (running (popen_pid proc) (os_procs w)) eqn:Hrun; cbn [negb].
    + rewrite ret_run. destruct (IH w1) as (w' & -> & Ho & Hp); [by rewrite Hs1|].
      exists w'. split; [done|]. split; [congruence|].
      rewrite Hp, Hs1, Ho1. apply list_filter_iff. intros h.
      rewrite not_elem_of_cons. unfold still_running.
      split; [|tauto]. intros [?|?]; [|tauto].
      destruct (decide (h = proc)) as [->|?]; tauto.
    + rewrite bind_run. unfold Logger_debug, emit. cbv beta iota.
      set (msg2 := "clean_up: Freeing proc pid=" +:+ _).
      destruct (record_fields (EvLog Debug msg2) w1) as [Hs2 Ho2].
      destruct (procs_remove_run proc (record (EvLog Debug msg2) w1))
        as (w2 & -> & Hp2 & Ho2'); [by rewrite Hs2, Hs1|].
      destruct (IH w2) as (w' & -> & Ho & Hp).
      { rewrite Hp2. by apply NoDup_filter; rewrite Hs2, Hs1. }
      exists w'. split; [done|]. split; [congruence|].
      rewrite Hp, Hp2, Hs2, Hs1, Ho2', Ho2, Ho1, list_filter_filter.
      apply list_filter_iff. intros h.
      rewrite not_elem_of_cons. unfold still_running.
      split.
      * intros [[?|?] ?]; [left; tauto | right; done].
      * intros [[? ?]|Hr]; [tauto|]. split; [tauto|].
        intros ->. congruence.
Qed.

Lemma clean_up_run (w : World) :
  NoDup (_procs (self w)) ->
  exists w',
    _clean_up w = Ok tt w' /\
    os_procs w' = os_procs w /\
    _procs (self w') = filter (still_running (os_procs w)) (_procs (self w)).
Proof.
  intros Hnd. unfold _clean_up, gets. rewrite bind_run. cbv beta iota.
  destruct (clean_up_loop_filter (_procs (self w)) w Hnd) as (w' & -> & Ho & Hp).
  exists w'. split; [done|]. split; [done|].
  rewrite Hp. apply filter_ext_elem.
  intros h Hh. split; [|tauto]. intros [?|?]; [done | done].
Qed.

(** [_clean_up] never raises; when no handle occurs twice in the process
    list, it leaves exactly the handles whose child is still running, in
    their order, and it does not touch the process table. *)
Theorem clean_up_keeps_running_handles (w : World) :
  NoDup (_procs (self w)) ->
  exists w',
    _clean_up w = Ok tt w' /\
    os_procs w' = os_procs w /\
    _procs (self w') = filter (still_running (os_procs w)) (_procs (self w)) /\
    (forall h, h ∈ _procs (self w') <->
               h ∈ _procs (self w) /\ still_running (os_procs w) h).
Proof.
  intros Hnd. destruct (clean_up_run w Hnd) as (w' & Hrun & Ho & Hp).
  exists w'. split; [done|]. split; [done|]. split; [done|].
  intros h. rewrite Hp, list_elem_of_filter. tauto.
Qed.

(* ================================================================== *)
(** ** What the status query reports *)
(* ================================================================== *)

Lemma find_some_matches signature procs proc :
  _find_process_by_signature signature procs = Some proc ->
  is_tunnel_of signature proc.
Proof.
  induction procs as [|q rest IH]; simpl; [done|].
  destruct (matches_signature signature q) eqn:Hq; [|done].
  intros [= <-]. by apply matches_signature_spec.
Qed.

Lemma find_none_no_match signature procs :
  _find_process_by_signature signature procs = None <->
  forall q, q ∈ procs -> ~ is_tunnel_of signature q.
Proof.
  induction procs as [|q rest IH]; simpl.
  - split; [|done]. intros _ q Hq. by apply elem_of_nil in Hq.
  - destruct (matches_signature signature q) eqn:Hq.
    + split; [done|]. intros Hall. exfalso.
      apply (Hall q); [apply list_elem_of_here | by apply matches_signature_spec].
    + rewrite IH. split.
      * intros Hall p Hp. apply elem_of_cons in Hp as [->|Hp]; [|by apply Hall].
        rewrite <- matches_signature_spec. by rewrite Hq.
      * intros Hall p Hp. apply Hall. by apply list_elem_of_further.
Qed.

(** [get_stats] has an entry exactly for the definitions it was asked
    about.  An entry says [is_alive] exactly when some process of the table
    has the definition's signature and the marker in its command line; it
    then carries the pid of such a process, and no pid otherwise. *)
Theorem get_stats_reports_liveness (definitions : list Forwarding)
    (definition : Forwarding) (w : World) :
  (definition ∉ definitions ->
   status (get_stats definitions w) !! definition = None) /\
  (definition ∈ definitions ->
   exists st,
     status (get_stats definitions w) !! definition = Some st /\
     (st_is_alive st = true <->
      exists proc, proc ∈ os_procs w /\
                   is_tunnel_of (create_ssh_forwarding definition) proc) /\
     (st_is_alive st = false <-> st_pid st = None) /\
     (forall z, st_pid st = Some z ->
        exists proc, proc ∈ os_procs w /\ pid proc = z /\
                     is_tunnel_of (create_ssh_forwarding definition) proc)).
Proof.
  split; [apply get_stats_status_absent|].
  intros Hin. exists (definition_status definition w).
  split; [by apply get_stats_status_lookup|].
  unfold definition_status. simpl.
  destruct (_find_process_by_signature (create_ssh_forwarding definition)
              (os_procs w)) as [proc|] eqn:Hf; simpl.
  - split; [|split].
    + split; [|done]. intros _. exists proc.
      split; [by eapply find_some_elem | by eapply find_some_matches].
    + split; intros H; done.
    + intros z [= <-]. exists proc.
      split; [by eapply find_some_elem|]. split; [done | by eapply find_some_matches].
  - split; [|split].
    + split; [done|].
      intros (proc & Hp & Hm). exfalso.
      by eapply (proj1 (find_none_no_match _ _) Hf).
    + done.
    + done.
Qed.

(** After a call of [spawn_tunnel] for a definition, whatever the
    supervisor did since, [get_stats] reports as [restarts_count] the
    number of starts recorded before that call. *)
Theorem get_stats_counts_earlier_starts (fuel : nat) (definitions : list Forwarding)
    (definition : Forwarding) (configuration : HostTunnelDefinitions) (w : World) :
  definition ∈ definitions ->
  restarts_count <$>
    status (get_stats definitions
              (outcome_world (spawn_tunnel fuel definition configuration w)))
    !! definition
  = Some (Z.of_nat (length (starts_history_of definition (self w)))).
Proof.
  intros Hin. rewrite get_stats_restarts_count by done. f_equal.
  rewrite spawn_tunnel_run.
  destruct (keeps_spawn_and_loop fuel) as [Hs _].
  destruct (Hs (forwarding_args definition configuration) definition configuration
              (create_ssh_forwarding definition)
              (registered definition configuration w)) as (_ & Hh & _).
  unfold starts_history_of at 1. rewrite Hh.
  assert (_starts_history (self (registered definition configuration w))
          = starts_history_append definition (env_today (env w) (clock w))
              (_starts_history (self w))) as -> by done.
  rewrite starts_history_append_insert, lookup_insert_eq.
  unfold starts_history_of.
  destruct (_starts_history (self w) !! definition); simpl;
    rewrite ?length_app; simpl; lia.
Qed.

(* ================================================================== *)
(** ** Identification by substring *)
(* ================================================================== *)

Lemma occurs_in_trans (a b c : string) :
  occurs_in a b -> occurs_in b c -> occurs_in a c.
Proof.
  intros (p1 & q1 & ->) (p2 & q2 & ->).
  exists (p2 +:+ p1), (q1 +:+ q2). by rewrite !PyStr.app_assoc'.
Qed.

(** A process that carries a signature also carries every text that occurs
    in that signature: when one signature occurs in another, the lookup
    for the shorter one finds a process whenever the lookup for the longer
    one does. *)
Theorem lookup_confuses_nested_signatures (short long : string)
    (procs : list OsProc) :
  occurs_in short long ->
  (forall proc, is_tunnel_of long proc -> is_tunnel_of short proc) /\
  (is_Some (_find_process_by_signature long procs) ->
   is_Some (_find_process_by_signature short procs)).
Proof.
  intros Hocc.
  assert (forall proc, is_tunnel_of long proc -> is_tunnel_of short proc) as Himp.
  { intros proc [Hs Ha]. split; [by eapply occurs_in_trans | done]. }
  split; [done|]. intros [proc Hf].
  destruct (_find_process_by_signature short procs) as [q|] eqn:Hq; [done|].
  exfalso. apply (proj1 (find_none_no_match _ _) Hq proc).
  - by eapply find_some_elem.
  - apply Himp. by eapply find_some_matches.
Qed.

Lemma occurs_in_launch_cmd_signature definition configuration :
  occurs_in (create_ssh_forwarding definition)
    (launch_cmd (forwarding_args definition configuration) configuration).
Proof.
  unfold launch_cmd, forwarding_args.
  exists (sshpass_prefix configuration +:+ "autossh -M 0 -N -f " +:+ fixed_ssh_opts
          +:+ " " +:+ identity_opts configuration +:+ " "),
         (" " +:+ destination configuration).
  by rewrite !PyStr.app_assoc'.
Qed.

Lemma occurs_in_launch_cmd_marker args configuration :
  occurs_in "autossh" (launch_cmd args configuration).
Proof.
  unfold launch_cmd.
  exists (sshpass_prefix configuration),
         (" -M 0 -N -f " +:+ fixed_ssh_opts +:+ " " +:+ args +:+ " "
          +:+ destination configuration).
  reflexivity.
Qed.

(** The command built for a definition contains the definition's
    signature and the marker; so the lookup by that signature finds a
    process in every table that holds a process whose command line
    contains the command. *)
Theorem launched_process_is_found (definition : Forwarding)
    (configuration : HostTunnelDefinitions) (procs : list OsProc) (proc : OsProc) :
  proc ∈ procs ->
  occurs_in (launch_cmd (forwarding_args definition configuration) configuration)
    (joined_cmdline proc) ->
  is_tunnel_of (create_ssh_forwarding definition) proc /\
  exists found,
    _find_process_by_signature (create_ssh_forwarding definition) procs = Some found /\
    is_tunnel_of (create_ssh_forwarding definition) found.
Proof.
  intros Hin Hocc.
  assert (is_tunnel_of (create_ssh_forwarding definition) proc) as Hm.
  { split; (eapply occurs_in_trans; [|exact Hocc]).
    - apply occurs_in_launch_cmd_signature.
    - apply occurs_in_launch_cmd_marker. }
  split; [done|].
  destruct (_find_process_by_signature (create_ssh_forwarding definition) procs)
    as [found|] eqn:Hf.
  - exists found. split; [done | by eapply find_some_matches].
  - exfalso. by apply (proj1 (find_none_no_match _ _) Hf proc).
Qed.

(* ================================================================== *)
(** ** More on the cancellable sleep *)
(* ================================================================== *)

(** The cancellable sleep never raises; when it returns [False] the
    termination flag is set; it sleeps at most [sleep_time] seconds and
    runs no probe and launches nothing. *)
Theorem carefully_sleep_total (sleep_time : Z) (w : World) :
  exists b w',
    _carefully_sleep sleep_time w = Ok b w' /\
    (b = false -> is_terminating (self w') = true) /\
    clock w <= clock w' <= clock w + Z.max sleep_time 0 /\
    env w' = env w /\
    alive_calls w' = alive_calls w /\
    probe_calls w' = probe_calls w /\
    popen_calls w' = popen_calls w /\
    _procs (self w') = _procs (self w).
Proof.
  unfold _carefully_sleep.
  assert (forall n w,
    exists b w',
      _carefully_sleep_ticks n w = Ok b w' /\
      (b = false -> is_terminating (self w') = true) /\
      clock w <= clock w' <= clock w + Z.of_nat n /\
      env w' = env w /\ alive_calls w' = alive_calls w /\
      probe_calls w' = probe_calls w /\ popen_calls w' = popen_calls w /\
      _procs (self w') = _procs (self w)) as Hticks.
  { clear. induction n as [|n IH]; intros w.
    - exists true, w. repeat split; try done; lia.
    - destruct (is_terminating (self w)) eqn:Hflag.
      + rewrite carefully_sleep_tick_cancel by done.
        destruct (cancel_fields w) as (He & Ha & Hp & Ho & Hs & _).
        eexists _, _. split; [done|].
        assert (clock (record (EvLog Debug msg_termination_signal)
                         (record (EvReadFlag true) w)) = clock w) as Hc
          by by destruct_world w.
        rewrite Hs, Hc. repeat split; try done; lia.
      + rewrite carefully_sleep_tick_awake by done. fold (ticked w).
        destruct (ticked_fields w) as (He1 & Hc1 & Ha1 & Hp1 & Ho1 & Hpr1 & _ & _).
        destruct (IH (ticked w)) as (b & w' & -> & Hb & Hc & He & Ha & Hp & Ho & Hpr).
        exists b, w'. split; [done|]. split; [done|].
        repeat split; try congruence; lia. }
  destruct (Hticks (Z.to_nat sleep_time) w)
    as (b & w' & Hrun & Hb & Hc & He & Ha & Hp & Ho & Hpr).
  exists b, w'. repeat split; try done; lia.
Qed.

Lemma flag_set_during_split e c n :
  0 <= n ->
  flag_set_during e c (n + 1) = flag_set_during e c 1 || flag_set_during e (c + 1) n.
Proof.
  intros Hn. unfold flag_set_during. destruct (env_terminate_tick e) as [tick|]; [|done].
  destruct (Z.leb_spec c tick), (Z.ltb_spec tick (c + (n + 1))),
           (Z.ltb_spec tick (c + 1)), (Z.leb_spec (c + 1) tick),
           (Z.ltb_spec tick (c + 1 + n)); simpl; try done; lia.
Qed.

Lemma carefully_sleep_ticks_uninterrupted n w :
  is_terminating (self w) = false ->
  flag_set_during (env w) (clock w) (Z.of_nat n) = false ->
  exists w',
    _carefully_sleep_ticks n w = Ok true w' /\
    is_terminating (self w') = false /\
    clock w' = clock w + Z.of_nat n /\
    env w' = env w /\ alive_calls w' = alive_calls w /\
    probe_calls w' = probe_calls w /\ popen_calls w' = popen_calls w /\
    _procs (self w') = _procs (self w) /\
    trace w' = (trace w ++ tick_events n)%list.
Proof.
  revert w. induction n as [|n IH]; intros w Hflag Hwin.
  - exists w. repeat split; try done; [lia | by rewrite app_nil_r].
  - rewrite carefully_sleep_tick_awake by done. fold (ticked w).
    destruct (ticked_fields w) as (He1 & Hc1 & Ha1 & Hp1 & Ho1 & Hpr1 & Hf1 & Htr1).
    replace (Z.of_nat (S n)) with (Z.of_nat n + 1) in Hwin by lia.
    rewrite flag_set_during_split in Hwin by lia.
    apply orb_false_iff in Hwin as [Hnow Hlater].
    destruct (IH (ticked w)) as (w' & -> & Hf & Hc & He & Ha & Hp & Ho & Hpr & Htr).
    + by rewrite Hf1, Hflag, Hnow.
    + by rewrite He1, Hc1.
    + exists w'. split; [done|]. split; [done|].
      repeat split; try congruence; [lia|].
      rewrite Htr, Htr1. unfold tick_events. simpl. by rewrite <- app_assoc.
Qed.

(** When the flag is unset and nobody sets it during the sleep, the
    cancellable sleep returns [True] after exactly [max(sleep_time, 0)]
    seconds, having read the flag once per second; a negative [sleep_time]
    is an immediate [True]. *)
Theorem carefully_sleep_uninterrupted (sleep_time : Z) (w : World) :
  is_terminating (self w) = false ->
  flag_set_during (env w) (clock w) sleep_time = false ->
  exists w',
    _carefully_sleep sleep_time w = Ok true w' /\
    is_terminating (self w') = false /\
    clock w' = clock w + Z.max sleep_time 0 /\
    trace w' = (trace w ++ tick_events (Z.to_nat sleep_time))%list /\
    (sleep_time <= 0 -> w' = w).
Proof.
  intros Hflag Hwin. unfold _carefully_sleep.
  destruct (Z.le_gt_cases sleep_time 0) as [Hneg|Hpos].
  - replace (Z.to_nat sleep_time) with O by lia.
    exists w. repeat split; try done; [lia | by rewrite app_nil_r].
  - destruct (carefully_sleep_ticks_uninterrupted (Z.to_nat sleep_time) w)
      as (w' & Hrun & Hf & Hc & _ & _ & _ & _ & _ & Htr); [done | |].
    + by rewrite Z2Nat.id by lia.
    + exists w'. repeat split; try done; lia.
Qed.

(** When the flag is already set at the top of a monitoring iteration and
    the check interval is at least one second, the supervisor leaves its
    loop at once: it reads the flag, logs, and neither sleeps nor runs a
    check. *)
Theorem tunnel_loop_returns_when_flag_set (fuel : nat) (definition : Forwarding)
    (configuration : HostTunnelDefinitions) (signature args : string) (w : World) :
  is_terminating (self w) = true ->
  1 <= interval (validate definition) ->
  _tunnel_loop (S fuel) definition configuration signature args w
  = Ok tt (record (EvLog Debug msg_termination_signal) (record (EvReadFlag true) w)).
Proof.
  intros Hflag Hint.
  rewrite (tunnel_loop_step _ _ _ _ _ _ LoopReturn
             (record (EvLog Debug msg_termination_signal) (record (EvReadFlag true) w)));
    [done|].
  unfold _tunnel_loop_iteration, _carefully_sleep. rewrite bind_run.
  destruct (Z.to_nat (interval (validate definition))) as [|n] eqn:Hn; [lia|].
  by rewrite carefully_sleep_tick_cancel.
Qed.

(* ================================================================== *)
(** ** More on monitoring and launching *)
(* ================================================================== *)

(** When the tunnel process is found dead in a monitoring iteration, the
    supervisor relaunches at once: it runs no health probe, kills nothing
    and does not wait. *)
Theorem dead_process_relaunched_at_once (fuel : nat) (definition : Forwarding)
    (configuration : HostTunnelDefinitions) (signature args : string)
    (w w1 : World) :
  _carefully_sleep (interval (validate definition)) w = Ok true w1 ->
  env_is_process_alive (env w1) (alive_calls w1) signature = false ->
  exists w2,
    _tunnel_loop_iteration definition configuration signature w
    = Ok LoopRelaunch w2 /\
    _tunnel_loop (S fuel) definition configuration signature args w
    = spawn_ssh_process fuel args definition configuration signature w2 /\
    self w2 = self w1 /\ os_procs w2 = os_procs w1 /\ clock w2 = clock w1 /\
    probe_calls w2 = probe_calls w1 /\ popen_calls w2 = popen_calls w1 /\
    trace w2 = (trace w1 ++
                [EvLog Debug (msg_running_checks signature);
                 EvIsProcessAlive signature false;
                 EvLog Error (msg_tunnel_exited signature)])%list.
Proof.
  intros Hsleep Halive.
  assert (exists w2,
    _tunnel_loop_iteration definition configuration signature w
    = Ok LoopRelaunch w2 /\
    self w2 = self w1 /\ os_procs w2 = os_procs w1 /\ clock w2 = clock w1 /\
    probe_calls w2 = probe_calls w1 /\ popen_calls w2 = popen_calls w1 /\
    trace w2 = (trace w1 ++
                [EvLog Debug (msg_running_checks signature);
                 EvIsProcessAlive signature false;
                 EvLog Error (msg_tunnel_exited signature)])%list)
    as (w2 & Hit & Hrest).
  { unfold _tunnel_loop_iteration. rewrite bind_run, Hsleep. cbv beta iota.
    clear Hsleep. destruct_world w1.
    run_monad. unfold Validation_is_process_alive. run_monad. rewrite Halive.
    run_monad. eexists. split; [reflexivity|]. simpl. repeat split.
    by rewrite <- !app_assoc. }
  exists w2. split; [done|]. split; [|done].
  by rewrite (tunnel_loop_step _ _ _ _ _ _ _ _ Hit).
Qed.

Lemma iteration_healthy definition configuration signature w :
  is_terminating (self w) = false ->
  flag_set_during (env w) (clock w) (interval (validate definition)) = false ->
  env_is_process_alive (env w) (alive_calls w) signature = true ->
  env_check_tunnel_alive (env w) (probe_calls w) definition configuration = true ->
  exists w2,
    _tunnel_loop_iteration definition configuration signature w
    = Ok LoopContinue w2 /\
    is_terminating (self w2) = false /\
    clock w2 = clock w + Z.max (interval (validate definition)) 0 /\
    env w2 = env w /\
    alive_calls w2 = S (alive_calls w) /\ probe_calls w2 = S (probe_calls w) /\
    popen_calls w2 = popen_calls w /\ _procs (self w2) = _procs (self w).
Proof.
  intros Hflag Hwin Halive Hprobe.
  unfold _tunnel_loop_iteration, _carefully_sleep. rewrite bind_run.
  destruct (Z.le_gt_cases (interval (validate definition)) 0) as [Hneg|Hpos].
  - replace (Z.to_nat (interval (validate definition))) with O by lia.
    cbn [_carefully_sleep_ticks]. rewrite ret_run. cbv beta iota.
    destruct_world w.
    run_monad. unfold Validation_is_process_alive. run_monad. rewrite Halive.
    run_monad. unfold Validation_check_tunnel_alive. run_monad. rewrite Hprobe.
    run_monad. eexists. split; [reflexivity|]. simpl. repeat split; try done. lia.
  - destruct (carefully_sleep_ticks_uninterrupted
                (Z.to_nat (interval (validate definition))) w)
      as (w1 & -> & Hf & Hc & He & Ha & Hp & Ho & Hpr & _); [done | |].
    { by rewrite Z2Nat.id by lia. }
    cbv beta iota. rewrite <- He, <- Ha in Halive. rewrite <- He, <- Hp in Hprobe.
    rewrite <- Ha, <- Hp, <- Ho, <- Hpr, <- He.
    replace (clock w + Z.max (interval (validate definition)) 0) with (clock w1) by lia.
    clear Hc He Ha Hp Ho Hpr Hflag Hwin. destruct_world w1.
    run_monad. unfold Validation_is_process_alive. run_monad. rewrite Halive.
    run_monad. unfold Validation_check_tunnel_alive. run_monad. rewrite Hprobe.
    run_monad. eexists. split; [reflexivity|]. simpl. by repeat split.
Qed.

(** Monitoring a tunnel that stays healthy, with nobody asking for
    termination, goes on for ever and leaves the tunnel alone: for every
    amount of fuel the loop is still running, has launched nothing, has
    left the process list as it was and has spent one check interval per
    iteration. *)
Theorem healthy_tunnel_is_left_alone (fuel : nat) (definition : Forwarding)
    (configuration : HostTunnelDefinitions) (signature args : string) (w : World) :
  is_terminating (self w) = false ->
  env_terminate_tick (env w) = None ->
  (forall n, env_is_process_alive (env w) n signature = true) ->
  (forall n, env_check_tunnel_alive (env w) n definition configuration = true) ->
  exists w',
    _tunnel_loop fuel definition configuration signature args w = OutOfFuel w' /\
    is_terminating (self w') = false /\
    popen_calls w' = popen_calls w /\
    _procs (self w') = _procs (self w) /\
    _starts_history (self w') = _starts_history (self w) /\
    clock w' = clock w + Z.of_nat fuel * Z.max (interval (validate definition)) 0 /\
    alive_calls w' = (alive_calls w + fuel)%nat /\
    probe_calls w' = (probe_calls w + fuel)%nat.
Proof.
  intros Hflag Hterm Halive Hprobe.
  assert (_starts_history
            (self (outcome_world
                     (_tunnel_loop fuel definition configuration signature args w)))
          = _starts_history (self w)) as Hhist.
  { destruct (keeps_spawn_and_loop fuel) as [_ Hl].
    by destruct (Hl definition configuration signature args w) as (_ & ? & _). }
  revert w Hflag Hterm Halive Hprobe Hhist.
  induction fuel as [|fuel IH]; intros w Hflag Hterm Halive Hprobe Hhist.
  - exists w. simpl. repeat split; try done; lia.
  - destruct (iteration_healthy definition configuration signature w)
      as (w2 & Hit & Hf & Hc & He & Ha & Hp & Ho & Hpr); try done.
    { unfold flag_set_during. by rewrite Hterm. }
    rewrite (tunnel_loop_step _ _ _ _ _ _ _ _ Hit) in Hhist |- *.
    cbn [after_iteration] in Hhist |- *.
    destruct (IH w2) as (w' & Hrun & Hf' & Ho' & Hpr' & _ & Hc' & Ha' & Hp');
      try (rewrite He; done); [done | |].
    { destruct (keeps_spawn_and_loop fuel) as [_ Hl].
      by destruct (Hl definition configuration signature args w2) as (_ & ? & _). }
    exists w'. split; [done|]. rewrite Hrun in Hhist. simpl in Hhist.
    repeat split; try congruence; lia.
Qed.



Lemma spawn_ssh_process_terminating_ok fuel args definition configuration
    signature w :
  is_terminating (self w) = true ->
  exists w',
    spawn_ssh_process (S fuel) args definition configuration signature w
    = Ok tt w' /\ tidied w w'.
Proof.
  intros Hflag. cbn [spawn_ssh_process]. rewrite bind_run.
  change (emit (EvSpawnSshProcess signature) w)
    with (Ok tt (record (EvSpawnSshProcess signature) w)).
  cbv beta iota. rewrite bind_run.
  destruct (succeeds_locked_clean_up (record (EvSpawnSshProcess signature) w))
    as ([] & w1 & -> & Htidy).
  assert (tidied w w1) as Ht1.
  { eapply tidied_trans; [|exact Htidy]. by apply tidied_record. }
  rewrite bind_run. unfold read_is_terminating.
  destruct Ht1 as (?&?&?&?&?&?&Hf&?&?&?&?) eqn:Heq. clear Heq.
  rewrite Hf, Hflag. cbv beta iota. rewrite ret_run.
  eexists. split; [done|].
  eapply tidied_trans; [|by apply (tidied_record (EvReadFlag true))].
  by repeat split.
Qed.

(** A call of [spawn_tunnel] made while the termination flag is set
    returns without launching anything, and still registers the signature
    and records a start: the history of the definition grows by today's
    date although no process was started. *)
Theorem spawn_tunnel_when_terminating (fuel : nat) (definition : Forwarding)
    (configuration : HostTunnelDefinitions) (w : World) :
  is_terminating (self w) = true ->
  exists w',
    spawn_tunnel (S fuel) definition configuration w = Ok tt w' /\
    popen_calls w' = popen_calls w /\
    os_procs w' = os_procs w /\
    _signatures (self w')
    = (_signatures (self w) ++ [create_ssh_forwarding definition])%list /\
    starts_history_of definition (self w')
    = (starts_history_of definition (self w) ++ [env_today (env w) (clock w)])%list.
Proof.
  intros Hflag. rewrite spawn_tunnel_run.
  destruct (spawn_ssh_process_terminating_ok fuel
              (forwarding_args definition configuration) definition configuration
              (create_ssh_forwarding definition)
              (registered definition configuration w))
    as (w' & -> & Ht); [by destruct_world w|].
  exists w'. split; [done|].
  destruct Ht as (_&Ho&_&_&_&Hpo&_&Hs&Hh&_).
  unfold starts_history_of. rewrite Hpo, Ho, Hs, Hh.
  assert (_starts_history (self (registered definition configuration w))
          = starts_history_append definition (env_today (env w) (clock w))
              (_starts_history (self w))) as -> by done.
  rewrite starts_history_append_insert, lookup_insert_eq.
  repeat split; try by destruct_world w.
Qed.

(* ================================================================== *)
(** ** What shutdown leaves behind *)
(* ================================================================== *)













(* ================================================================== *)
(** ** Invariants of the supervisor *)
(* ================================================================== *)

(** [m] keeps the property [I] of worlds, whether it returns, raises or is
    still running. *)
Definition stable {A} (I : World -> Prop) (m : M A) : Prop :=
  forall w, I w -> I (outcome_world (m w)).

(** [m] keeps [I] and always returns. *)
Definition achieves {A} (I : World -> Prop) (m : M A) : Prop :=
  forall w, I w -> exists a w', m w = Ok a w' /\ I w'.

Section Stable.
Variable I : World -> Prop.

Lemma stable_ret {A} (a : A) : stable I (mret a : M A).
Proof. by intros w Hw. Qed.

Lemma stable_gets {A} (f : World -> A) : stable I (gets f).
Proof. by intros w Hw. Qed.

Lemma stable_out_of_fuel {A} : stable I (out_of_fuel : M A).
Proof. by intros w Hw. Qed.

Lemma stable_bind {A B} (m : M A) (k : A -> M B) :
  stable I m -> (forall a, stable I (k a)) -> stable I (m ≫= k).
Proof.
  intros Hm Hk w Hw. rewrite bind_run. specialize (Hm w Hw).
  destruct (m w) as [a w'|e w'|w']; simpl in *; try done. by apply Hk.
Qed.

Lemma stable_if {A} (b : bool) (m1 m2 : M A) :
  stable I m1 -> stable I m2 -> stable I (if b then m1 else m2).
Proof. by destruct b. Qed.

Lemma achieves_ret {A} (a : A) : achieves I (mret a : M A).
Proof. intros w Hw. by exists a, w. Qed.

Lemma achieves_bind {A B} (m : M A) (k : A -> M B) :
  achieves I m -> (forall a, achieves I (k a)) -> achieves I (m ≫= k).
Proof.
  intros Hm Hk w Hw. destruct (Hm w Hw) as (a & w1 & H1 & I1).
  destruct (Hk a w1 I1) as (b & w2 & H2 & I2).
  exists b, w2. split; [by rewrite bind_run, H1 | done].
Qed.

Lemma achieves_stable {A} (m : M A) : achieves I m -> stable I m.
Proof. intros Hm w Hw. by destruct (Hm w Hw) as (a & w' & -> & ?). Qed.
End Stable.

(** Unfolds a primitive on a world taken apart. *)
Ltac open_primitive w :=
  unfold emit, modify, gets, read_is_terminating, sleep, date_today,
    Validation_is_process_alive, Validation_check_tunnel_alive,
    subprocess_Popen, Process_kill, Popen_poll_exited, Popen_kill,
    procs_remove, Logger_debug, Logger_info, Logger_error;
  repeat case_match; destruct_world w.

(** Splits a command into its primitives; [prim] proves their goals. *)
Ltac stable_steps prim :=
  repeat first
    [ assumption
    | match goal with
      | H : forall _, stable _ _ |- _ => apply H
      | H : forall _ _, stable _ _ |- _ => apply H
      | H : forall _ _ _, stable _ _ |- _ => apply H
      | H : forall _ _ _ _, stable _ _ |- _ => apply H
      end
    | apply stable_ret
    | apply stable_gets
    | apply stable_out_of_fuel
    | apply stable_if
    | match goal with
      | |- stable _ (match ?x with _ => _ end) => destruct x
      end
    | solve [prim]
    | apply stable_bind; [|intros ?] ].

(** *** The registered signatures *)

Definition signatures_are (l : list string) (w : World) : Prop :=
  _signatures (self w) = l.

Ltac signatures_prim :=
  let w := fresh "w" in let Hw := fresh "Hw" in
  intros w Hw; unfold signatures_are in *; open_primitive w; done.

Lemma signatures_clean_up_loop l snapshot :
  stable (signatures_are l) (_clean_up_loop snapshot).
Proof. induction snapshot as [|proc rest IH]; simpl; stable_steps signatures_prim. Qed.

Lemma signatures_with_lock {A} l (m : M A) :
  stable (signatures_are l) m -> stable (signatures_are l) (with_lock m).
Proof.
  intros Hm w Hw. unfold with_lock. rewrite bind_run.
  change (emit EvLockAcquire w) with (Ok tt (record EvLockAcquire w)).
  cbv beta iota. unfold finally.
  assert (signatures_are l (record EvLockAcquire w)) as H1
    by (unfold signatures_are in *; by destruct_world w).
  specialize (Hm _ H1).
  destruct (m (record EvLockAcquire w)) as [a w'|e w'|w']; simpl in *; try done;
    unfold signatures_are in *; by destruct_world w'.
Qed.

Lemma signatures_carefully_sleep l sleep_time :
  stable (signatures_are l) (_carefully_sleep sleep_time).
Proof.
  unfold _carefully_sleep.
  induction (Z.to_nat sleep_time) as [|n IH]; simpl; stable_steps signatures_prim.
Qed.

Lemma signatures_iteration l definition configuration signature :
  stable (signatures_are l)
    (_tunnel_loop_iteration definition configuration signature).
Proof.
  pose proof (signatures_carefully_sleep l (interval (validate definition))).
  unfold _tunnel_loop_iteration, kill_existing, process_iter.
  stable_steps signatures_prim.
Qed.

Lemma signatures_spawn_and_loop l fuel :
  (forall args definition configuration signature,
     stable (signatures_are l)
       (spawn_ssh_process fuel args definition configuration signature)) /\
  (forall definition configuration signature args,
     stable (signatures_are l)
       (_tunnel_loop fuel definition configuration signature args)).
Proof.
  induction fuel as [|fuel [IHs IHl]]; split; intros; simpl;
    try (by apply stable_out_of_fuel).
  - pose proof (signatures_with_lock l _clean_up) as Hc.
    assert (stable (signatures_are l) _clean_up) as Hclean.
    { unfold _clean_up. apply stable_bind; [apply stable_gets|].
      intros snapshot. apply signatures_clean_up_loop. }
    specialize (Hc Hclean).
    assert (forall proc, stable (signatures_are l) (with_lock (procs_append proc)))
      as Happend.
    { intros proc. apply signatures_with_lock. unfold procs_append.
      stable_steps signatures_prim. }
    stable_steps signatures_prim; try apply Happend; try apply IHs; try apply IHl.
  - pose proof (signatures_iteration l definition configuration signature).
    stable_steps signatures_prim; try apply IHs; try apply IHl.
Qed.

(** A call of [spawn_tunnel] appends the signature of its definition to
    the registered signatures, once, also when it is already there; the
    launch/verify routine and the monitoring loop never change that
    list. *)
Theorem spawn_tunnel_registers_signature (fuel : nat) (args signature : string)
    (definition : Forwarding) (configuration : HostTunnelDefinitions) (w : World) :
  _signatures
    (self (outcome_world (spawn_tunnel fuel definition configuration w)))
  = (_signatures (self w) ++ [create_ssh_forwarding definition])%list /\
  _signatures
    (self (outcome_world
             (spawn_ssh_process fuel args definition configuration signature w)))
  = _signatures (self w) /\
  _signatures
    (self (outcome_world
             (_tunnel_loop fuel definition configuration signature args w)))
  = _signatures (self w).
Proof.
  split; [|split].
  - rewrite spawn_tunnel_run.
    destruct (signatures_spawn_and_loop
                (_signatures (self w) ++ [create_ssh_forwarding definition])%list fuel)
      as [Hs _].
    apply Hs. unfold signatures_are. by destruct_world w.
  - destruct (signatures_spawn_and_loop (_signatures (self w)) fuel) as [Hs _].
    by apply Hs.
  - destruct (signatures_spawn_and_loop (_signatures (self w)) fuel) as [_ Hl].
    by apply Hl.
Qed.

(** *** Events added to a trace *)

(** The trace of [w] is [base] followed by events that satisfy [Q]. *)
Definition added (base : list event) (Q : list event -> Prop) (w : World) : Prop :=
  exists evs, trace w = (base ++ evs)%list /\ Q evs.

Lemma added_start (Q : list event -> Prop) (w : World) : Q [] -> added (trace w) Q w.
Proof. intros HQ. exists []. by rewrite app_nil_r. Qed.

(** *** No kill without the kill-on-failure flag *)

Definition not_a_kill (e : event) : Prop :=
  match e with
  | EvProcessKill _ | EvPopenKill _ => False
  | _ => True
  end.

Ltac no_kill_prim :=
  let w := fresh "w" in let evs := fresh "evs" in
  let Htr := fresh "Htr" in let HF := fresh "HF" in
  intros w (evs & Htr & HF); unfold added; open_primitive w;
  first
    [ by exists evs
    | eexists (evs ++ [_])%list; split;
      [ by rewrite Htr, app_assoc
      | apply Forall_app; split; [done | by repeat constructor] ] ].

Lemma no_kill_clean_up_loop base snapshot :
  stable (added base (Forall not_a_kill)) (_clean_up_loop snapshot).
Proof. induction snapshot as [|proc rest IH]; simpl; stable_steps no_kill_prim. Qed.

Lemma no_kill_with_lock {A} base (m : M A) :
  stable (added base (Forall not_a_kill)) m ->
  stable (added base (Forall not_a_kill)) (with_lock m).
Proof.
  intros Hm w Hw. unfold with_lock. rewrite bind_run.
  change (emit EvLockAcquire w) with (Ok tt (record EvLockAcquire w)).
  cbv beta iota. unfold finally.
  assert (forall e w0, not_a_kill e -> added base (Forall not_a_kill) w0 ->
                       added base (Forall not_a_kill) (record e w0)) as Hrec.
  { intros e w0 He (evs & Htr & HF). exists (evs ++ [e])%list.
    rewrite trace_record, Htr, app_assoc. split; [done|].
    apply Forall_app. split; [done | by constructor]. }
  specialize (Hm _ (Hrec EvLockAcquire w I Hw)).
  destruct (m (record EvLockAcquire w)) as [a w'|e w'|w']; simpl in *;
    try done; by apply Hrec.
Qed.

Lemma no_kill_carefully_sleep base sleep_time :
  stable (added base (Forall not_a_kill)) (_carefully_sleep sleep_time).
Proof.
  unfold _carefully_sleep.
  induction (Z.to_nat sleep_time) as [|n IH]; simpl; stable_steps no_kill_prim.
Qed.

Lemma no_kill_iteration base definition configuration signature :
  kill_existing_tunnel_on_failure (validate definition) = false ->
  stable (added base (Forall not_a_kill))
    (_tunnel_loop_iteration definition configuration signature).
Proof.
  intros Hkill.
  pose proof (no_kill_carefully_sleep base (interval (validate definition))).
  unfold _tunnel_loop_iteration. rewrite Hkill.
  stable_steps no_kill_prim.
Qed.

Lemma no_kill_spawn_and_loop base fuel definition :
  kill_existing_tunnel_on_failure (validate definition) = false ->
  (forall args configuration signature,
     stable (added base (Forall not_a_kill))
       (spawn_ssh_process fuel args definition configuration signature)) /\
  (forall configuration signature args,
     stable (added base (Forall not_a_kill))
       (_tunnel_loop fuel definition configuration signature args)).
Proof.
  intros Hkill.
  induction fuel as [|fuel [IHs IHl]]; split; intros; simpl;
    try (by apply stable_out_of_fuel).
  - assert (stable (added base (Forall not_a_kill)) (with_lock _clean_up)) as Hc.
    { apply no_kill_with_lock. unfold _clean_up.
      apply stable_bind; [apply stable_gets|].
      intros snapshot. apply no_kill_clean_up_loop. }
    assert (forall proc,
              stable (added base (Forall not_a_kill)) (with_lock (procs_append proc)))
      as Happend.
    { intros proc. apply no_kill_with_lock. unfold procs_append.
      stable_steps no_kill_prim. }
    stable_steps no_kill_prim; try apply Happend; try apply IHs; try apply IHl.
  - pose proof (no_kill_iteration base definition configuration signature Hkill).
    stable_steps no_kill_prim; try apply IHs; try apply IHl.
Qed.

(** A supervisor whose definition has the kill-on-failure flag unset
    never kills a process, whatever the probes answer and however long it
    runs: no kill appears among the events that [spawn_tunnel], the
    launch/verify routine or the monitoring loop add to the trace. *)
Theorem no_kill_without_kill_flag (fuel : nat) (args signature : string)
    (definition : Forwarding) (configuration : HostTunnelDefinitions) (w : World) :
  kill_existing_tunnel_on_failure (validate definition) = false ->
  added (trace w) (Forall not_a_kill)
    (outcome_world (spawn_tunnel fuel definition configuration w)) /\
  added (trace w) (Forall not_a_kill)
    (outcome_world
       (spawn_ssh_process fuel args definition configuration signature w)) /\
  added (trace w) (Forall not_a_kill)
    (outcome_world (_tunnel_loop fuel definition configuration signature args w)).
Proof.
  intros Hkill.
  destruct (no_kill_spawn_and_loop (trace w) fuel definition Hkill) as [Hs Hl].
  split; [|split].
  - rewrite spawn_tunnel_run. apply Hs. clear Hs Hl.
    unfold added. destruct_world w.
    eexists. split; [reflexivity | by repeat constructor].
  - apply Hs. by apply added_start.
  - apply Hl. by apply added_start.
Qed.

(** *** The handles of the process list *)

(** No handle occurs twice in the process list, and every handle in it
    was returned by an earlier launch. *)
Definition handles_ok (w : World) : Prop :=
  NoDup (_procs (self w)) /\
  forall h, h ∈ _procs (self w) -> (popen_id h < popen_calls w)%nat.

Ltac handles_prim :=
  let w := fresh "w" in let Hnd := fresh "Hnd" in let Hid := fresh "Hid" in
  intros w [Hnd Hid]; unfold handles_ok in *; open_primitive w;
  (split; [done | first [done | intros ? ?; apply Nat.lt_lt_succ_r; by apply Hid]]).

Lemma handles_procs_remove proc : stable handles_ok (procs_remove proc).
Proof.
  intros w [Hnd Hid]. unfold procs_remove.
  destruct (list_remove proc (_procs (self w))) as [l|] eqn:Hl; [|done].
  apply list_remove_sublist in Hl. destruct_world w. split.
  - by eapply sublist_NoDup.
  - intros h Hh. apply Hid. by eapply elem_of_sublist.
Qed.

Lemma handles_record e w : handles_ok w -> handles_ok (record e w).
Proof. intros [? ?]. unfold handles_ok. by destruct_world w. Qed.

Lemma handles_with_lock {A} (m : M A) :
  stable handles_ok m -> stable handles_ok (with_lock m).
Proof.
  intros Hm w Hw. unfold with_lock. rewrite bind_run.
  change (emit EvLockAcquire w) with (Ok tt (record EvLockAcquire w)).
  cbv beta iota. unfold finally.
  specialize (Hm _ (handles_record EvLockAcquire w Hw)).
  destruct (m (record EvLockAcquire w)) as [a w'|e w'|w']; simpl in *;
    try done; by apply handles_record.
Qed.

Lemma handles_clean_up_loop snapshot : stable handles_ok (_clean_up_loop snapshot).
Proof.
  induction snapshot as [|proc rest IH]; simpl;
    stable_steps ltac:(first [apply handles_procs_remove | handles_prim]).
Qed.

Lemma handles_carefully_sleep sleep_time :
  stable handles_ok (_carefully_sleep sleep_time).
Proof.
  unfold _carefully_sleep.
  induction (Z.to_nat sleep_time) as [|n IH]; simpl; stable_steps handles_prim.
Qed.

Lemma handles_iteration definition configuration signature :
  stable handles_ok (_tunnel_loop_iteration definition configuration signature).
Proof.
  pose proof (handles_carefully_sleep (interval (validate definition))).
  unfold _tunnel_loop_iteration, kill_existing, process_iter.
  stable_steps handles_prim.
Qed.

(** Lines 113-116: the handle of a launch is new to the list. *)
Lemma handles_launch {A} (cmd : string) (tail : Popen -> M A) :
  (forall proc, stable handles_ok (tail proc)) ->
  stable handles_ok
    (proc ← subprocess_Popen cmd; with_lock (procs_append proc);; tail proc).
Proof.
  intros Htail w [Hnd Hid]. destruct_world w.
  unfold subprocess_Popen, with_lock, procs_append. run_monad.
  apply Htail. split; simpl.
  - apply NoDup_app. split; [done|]. split; [|apply NoDup_singleton].
    intros h Hh Heq. apply list_elem_of_singleton in Heq. subst h.
    specialize (Hid _ Hh). simpl in Hid. lia.
  - intros h Hh. apply elem_of_app in Hh as [Hh|Hh].
    + specialize (Hid _ Hh). lia.
    + apply list_elem_of_singleton in Hh. subst h. simpl. lia.
Qed.

Lemma handles_spawn_and_loop fuel :
  (forall args definition configuration signature,
     stable handles_ok
       (spawn_ssh_process fuel args definition configuration signature)) /\
  (forall definition configuration signature args,
     stable handles_ok
       (_tunnel_loop fuel definition configuration signature args)).
Proof.
  induction fuel as [|fuel [IHs IHl]]; split; intros; simpl;
    try (by apply stable_out_of_fuel).
  - assert (stable handles_ok (with_lock _clean_up)) as Hc.
    { apply handles_with_lock. unfold _clean_up.
      apply stable_bind; [apply stable_gets|].
      intros snapshot. apply handles_clean_up_loop. }
    apply stable_bind; [handles_prim | intros _].
    apply stable_bind; [exact Hc | intros _].
    apply stable_bind; [handles_prim | intros terminating].
    apply stable_if; [apply stable_ret|].
    apply stable_bind; [handles_prim | intros _].
    apply handles_launch. intros proc.
    stable_steps handles_prim; try apply IHs; try apply IHl.
  - pose proof (handles_iteration definition configuration signature).
    stable_steps handles_prim; try apply IHs; try apply IHl.
Qed.

Lemma handles_close_all_tunnels : stable handles_ok close_all_tunnels.
Proof.
  assert (forall sig snapshot, stable handles_ok (kill_all_matching sig snapshot))
    as Hsweep.
  { intros sig snapshot.
    induction snapshot as [|proc rest IH]; simpl; stable_steps handles_prim. }
  assert (forall sigs, stable handles_ok (close_signatures sigs)) as Hsigs.
  { intros sigs. induction sigs as [|sig rest IH]; simpl.
    - apply stable_ret.
    - unfold process_iter. stable_steps handles_prim. }
  assert (forall procs, stable handles_ok (kill_handles procs)) as Hkill.
  { intros procs.
    induction procs as [|proc rest IH]; simpl; stable_steps handles_prim. }
  unfold close_all_tunnels.
  stable_steps ltac:(first [apply Hsigs | apply Hkill | handles_prim]).
Qed.

(** No operation of the manager puts a handle into the process list
    twice, and the list only ever holds handles returned by a launch:
    [spawn_tunnel], the launch/verify routine, the monitoring loop and
    [close_all_tunnels] keep that property, however long they run. *)
Theorem process_list_handles_are_distinct (fuel : nat) (args signature : string)
    (definition : Forwarding) (configuration : HostTunnelDefinitions) (w : World) :
  handles_ok w ->
  handles_ok (outcome_world (spawn_tunnel fuel definition configuration w)) /\
  handles_ok
    (outcome_world
       (spawn_ssh_process fuel args definition configuration signature w)) /\
  handles_ok
    (outcome_world (_tunnel_loop fuel definition configuration signature args w)) /\
  handles_ok (outcome_world (close_all_tunnels w)).
Proof.
  intros Hw. destruct (handles_spawn_and_loop fuel) as [Hs Hl].
  split; [|split; [|split]].
  - rewrite spawn_tunnel_run. apply Hs.
    destruct Hw as [? ?]. unfold handles_ok. by destruct_world w.
  - by apply Hs.
  - by apply Hl.
  - by apply handles_close_all_tunnels.
Qed.

(** *** Lock discipline *)

(** The event is a change of one of the three shared collections. *)
Definition mutation (e : event) : bool :=
  match e with
  | EvSignaturesAppend _ | EvStartsHistoryAppend _ _
  | EvProcsAppend _ | EvProcsRemove _ => true
  | _ => false
  end.

(** Reads a trace from lock depth [depth]: [None] when a lock is released
    that is not held or when a shared collection is changed outside the
    lock, else the depth at the end. *)
Fixpoint lock_scan (depth : nat) (evs : list event) : option nat :=
  match evs with
  | [] => Some depth
  | e :: rest =>
      match e with
      | EvLockAcquire => lock_scan (S depth) rest
      | EvLockRelease =>
          match depth with
          | O => None
          | S d => lock_scan d rest
          end
      | _ => if mutation e && Nat.eqb depth 0 then None else lock_scan depth rest
      end
  end.

Lemma lock_scan_app depth evs1 evs2 :
  lock_scan depth (evs1 ++ evs2)
  = match lock_scan depth evs1 with
    | Some d => lock_scan d evs2
    | None => None
    end.
Proof.
  revert depth. induction evs1 as [|e evs1 IH]; intros depth; [done|].
  destruct e; simpl; try apply IH;
    try (destruct depth; [done | apply IH]).
Qed.

(** The events added since [base] keep the lock discipline and end at
    depth [depth]. *)
Definition disciplined (base : list event) (depth : nat) : World -> Prop :=
  added base (fun evs => lock_scan 0 evs = Some depth).

Lemma disciplined_record base depth depth' e w :
  lock_scan depth [e] = Some depth' ->
  disciplined base depth w -> disciplined base depth' (record e w).
Proof.
  intros He (evs & Htr & Hscan). exists (evs ++ [e])%list.
  rewrite trace_record, Htr, app_assoc. split; [done|].
  by rewrite lock_scan_app, Hscan.
Qed.

Ltac discipline_prim :=
  let w := fresh "w" in let evs := fresh "evs" in
  let Htr := fresh "Htr" in let Hscan := fresh "Hscan" in
  intros w (evs & Htr & Hscan); unfold disciplined, added; open_primitive w;
  first
    [ by exists evs
    | eexists (evs ++ [_])%list; split;
      [ by rewrite Htr, app_assoc
      | by rewrite lock_scan_app, Hscan ] ].

Ltac discipline_achieved :=
  let w := fresh "w" in let evs := fresh "evs" in
  let Htr := fresh "Htr" in let Hscan := fresh "Hscan" in
  intros w (evs & Htr & Hscan); unfold disciplined, added; open_primitive w;
  eexists _, _; (split; [reflexivity|]); simpl;
  first
    [ by exists evs
    | eexists (evs ++ [_])%list; split;
      [ by rewrite Htr, app_assoc
      | by rewrite lock_scan_app, Hscan ] ].

(** The clean-up, run with the lock held, stays within the lock. *)
Lemma discipline_clean_up_loop base snapshot :
  achieves (disciplined base 1) (_clean_up_loop snapshot).
Proof.
  induction snapshot as [|proc rest IH]; simpl.
  - apply achieves_ret.
  - apply achieves_bind; [discipline_achieved | intros _].
    apply achieves_bind; [discipline_achieved | intros exited].
    apply achieves_bind; [|intros _; exact IH].
    destruct exited; [|apply achieves_ret].
    apply achieves_bind; [discipline_achieved | intros _].
    discipline_achieved.
Qed.

(** A block that always returns and stays within the lock, wrapped in
    [with self._lock], takes and gives back the lock. *)
Lemma discipline_with_lock {A} base (m : M A) :
  achieves (disciplined base 1) m -> stable (disciplined base 0) (with_lock m).
Proof.
  intros Hm w Hw. unfold with_lock. rewrite bind_run.
  change (emit EvLockAcquire w) with (Ok tt (record EvLockAcquire w)).
  cbv beta iota. unfold finally.
  destruct (Hm (record EvLockAcquire w)) as (a & w' & -> & Hw').
  { by apply (disciplined_record base 0 1). }
  simpl. by apply (disciplined_record base 1 0).
Qed.

Lemma discipline_carefully_sleep base sleep_time :
  stable (disciplined base 0) (_carefully_sleep sleep_time).
Proof.
  unfold _carefully_sleep.
  induction (Z.to_nat sleep_time) as [|n IH]; simpl; stable_steps discipline_prim.
Qed.

Lemma discipline_iteration base definition configuration signature :
  stable (disciplined base 0)
    (_tunnel_loop_iteration definition configuration signature).
Proof.
  pose proof (discipline_carefully_sleep base (interval (validate definition))).
  unfold _tunnel_loop_iteration, kill_existing, process_iter.
  stable_steps discipline_prim.
Qed.

Lemma discipline_spawn_and_loop base fuel :
  (forall args definition configuration signature,
     stable (disciplined base 0)
       (spawn_ssh_process fuel args definition configuration signature)) /\
  (forall definition configuration signature args,
     stable (disciplined base 0)
       (_tunnel_loop fuel definition configuration signature args)).
Proof.
  induction fuel as [|fuel [IHs IHl]]; split; intros; simpl;
    try (by apply stable_out_of_fuel).
  - assert (stable (disciplined base 0) (with_lock _clean_up)) as Hc.
    { apply discipline_with_lock. unfold _clean_up.
      apply achieves_bind; [discipline_achieved | intros snapshot].
      apply discipline_clean_up_loop. }
    assert (forall proc, stable (disciplined base 0) (with_lock (procs_append proc)))
      as Happend.
    { intros proc. apply discipline_with_lock. unfold procs_append.
      apply achieves_bind; [discipline_achieved | intros _]. discipline_achieved. }
    stable_steps discipline_prim.
  - pose proof (discipline_iteration base definition configuration signature).
    stable_steps discipline_prim.
Qed.

(** The supervisor changes the signatures, the process list and the
    starts history only while it holds the lock, and gives every lock
    back: in the events that [spawn_tunnel], the launch/verify routine or
    the monitoring loop add to the trace, however long they run, every
    change of a shared collection lies between an acquire and its release,
    and no lock is held at the end. *)
Theorem shared_state_changes_under_lock (fuel : nat) (args signature : string)
    (definition : Forwarding) (configuration : HostTunnelDefinitions) (w : World) :
  disciplined (trace w) 0
    (outcome_world (spawn_tunnel fuel definition configuration w)) /\
  disciplined (trace w) 0
    (outcome_world
       (spawn_ssh_process fuel args definition configuration signature w)) /\
  disciplined (trace w) 0
    (outcome_world (_tunnel_loop fuel definition configuration signature args w)).
Proof.
  destruct (discipline_spawn_and_loop (trace w) fuel) as [Hs Hl].
  split; [|split].
  - rewrite spawn_tunnel_run. apply Hs. clear Hs Hl.
    unfold disciplined, added. destruct_world w.
    eexists. split; [reflexivity | reflexivity].
  - apply Hs. by apply added_start.
  - apply Hl. by apply added_start.
Qed.

(* ================================================================== *)
(** ** More concrete runs *)
(* ================================================================== *)

Module MoreExamples.
Import Examples.

(** The same forwarding as [tunnel], never killed on failure. *)
Definition gentle_tunnel : Forwarding :=
  mkForwarding "-L 8080:localhost:80" (mkValidation "tcp" 1 0 false).

(** The process answers the first liveness check only. *)
Definition dying : Env :=
  {| env_is_process_alive := fun n _ => match n with O => true | S _ => false end;
     env_check_tunnel_alive := fun _ _ _ => true;
     env_terminate_tick := None;
     env_today := fun _ => 19000;
     env_popen := launch;
     env_sleep := fun _ _ table => table |}.


(** The world after a shutdown of the monitored tunnel. *)
Definition shut_down : World :=
  outcome_world (close_all_tunnels (monitoring tunnel healthy)).

Lemma clean_up_keeps_running_handles_witness :
  exists w',
    _clean_up (monitoring tunnel healthy) = Ok tt w' /\
    _procs (self w')
    = filter (still_running (os_procs (monitoring tunnel healthy)))
        (_procs (self (monitoring tunnel healthy))).
Proof.
  destruct (clean_up_keeps_running_handles (monitoring tunnel healthy))
    as (w' & Hrun & _ & Hp & _).
  - assert (_procs (self (monitoring tunnel healthy)) = [mkPopen 0 0]) as ->
      by (vm_compute; reflexivity).
    apply NoDup_singleton.
  - exists w'. split; [exact Hrun | exact Hp].
Defined.

Lemma get_stats_reports_liveness_witness :
  exists st,
    status (get_stats [tunnel] (monitoring tunnel healthy)) !! tunnel = Some st /\
    (st_is_alive st = false <-> st_pid st = None).
Proof.
  destruct (proj2 (get_stats_reports_liveness [tunnel] tunnel
                     (monitoring tunnel healthy)))
    as (st & Hst & _ & Hpid & _).
  - apply list_elem_of_here.
  - exists st. split; [exact Hst | exact Hpid].
Defined.

Lemma get_stats_counts_earlier_starts_witness :
  restarts_count <$>
    status (get_stats [tunnel]
              (outcome_world (spawn_tunnel 1 tunnel host (fresh healthy))))
    !! tunnel
  = Some (Z.of_nat (length (starts_history_of tunnel (self (fresh healthy))))).
Proof.
  apply (get_stats_counts_earlier_starts 1 [tunnel] tunnel host (fresh healthy)).
  apply list_elem_of_here.
Defined.

Lemma lookup_confuses_nested_signatures_witness :
  (forall proc, is_tunnel_of "-L 80:h:80" proc -> is_tunnel_of "-L 80:h:8" proc) /\
  (is_Some (_find_process_by_signature "-L 80:h:80" []) ->
   is_Some (_find_process_by_signature "-L 80:h:8" [])).
Proof.
  apply (lookup_confuses_nested_signatures "-L 80:h:8" "-L 80:h:80" []).
  exists EmptyString, "0". reflexivity.
Defined.

Lemma launched_process_is_found_witness :
  let proc := mkOsProc 7 "sh" ["sh"; "-c"; launch_cmd args host] in
  is_tunnel_of (create_ssh_forwarding tunnel) proc /\
  exists found,
    _find_process_by_signature (create_ssh_forwarding tunnel) [proc] = Some found /\
    is_tunnel_of (create_ssh_forwarding tunnel) found.
Proof.
  apply (launched_process_is_found tunnel host
           [mkOsProc 7 "sh" ["sh"; "-c"; launch_cmd args host]]
           (mkOsProc 7 "sh" ["sh"; "-c"; launch_cmd args host])).
  - apply list_elem_of_here.
  - exists "sh -c ", EmptyString. vm_compute. reflexivity.
Defined.

Lemma carefully_sleep_uninterrupted_witness :
  exists w',
    _carefully_sleep 5 (monitoring patient_tunnel healthy) = Ok true w' /\
    clock w' = clock (monitoring patient_tunnel healthy) + Z.max 5 0.
Proof.
  destruct (carefully_sleep_uninterrupted 5 (monitoring patient_tunnel healthy))
    as (w' & Hrun & _ & Hc & _).
  - vm_compute; reflexivity.
  - vm_compute; reflexivity.
  - exists w'. split; [exact Hrun | exact Hc].
Defined.

Lemma tunnel_loop_returns_when_flag_set_witness :
  _tunnel_loop 1 tunnel host signature args shut_down
  = Ok tt (record (EvLog Debug msg_termination_signal)
             (record (EvReadFlag true) shut_down)).
Proof.
  apply (tunnel_loop_returns_when_flag_set 0 tunnel host signature args shut_down).
  - vm_compute; reflexivity.
  - simpl. lia.
Defined.

Lemma dead_process_relaunched_at_once_witness :
  exists w2,
    _tunnel_loop_iteration tunnel host signature (monitoring tunnel dying)
    = Ok LoopRelaunch w2 /\
    probe_calls w2
    = probe_calls (outcome_world (_carefully_sleep 1 (monitoring tunnel dying))).
Proof.
  destruct (dead_process_relaunched_at_once 1 tunnel host signature args
              (monitoring tunnel dying)
              (outcome_world (_carefully_sleep 1 (monitoring tunnel dying))))
    as (w2 & Hit & _ & _ & _ & _ & Hp & _).
  - vm_compute; reflexivity.
  - vm_compute; reflexivity.
  - exists w2. split; [exact Hit | exact Hp].
Defined.

Lemma healthy_tunnel_is_left_alone_witness :
  exists w',
    _tunnel_loop 3 tunnel host signature args (monitoring tunnel healthy)
    = OutOfFuel w' /\
    popen_calls w' = popen_calls (monitoring tunnel healthy) /\
    _procs (self w') = _procs (self (monitoring tunnel healthy)).
Proof.
  destruct (healthy_tunnel_is_left_alone 3 tunnel host signature args
              (monitoring tunnel healthy))
    as (w' & Hrun & _ & Ho & Hp & _).
  - vm_compute; reflexivity.
  - vm_compute; reflexivity.
  - intros n. vm_compute; reflexivity.
  - intros n. vm_compute; reflexivity.
  - exists w'. split; [exact Hrun | split; [exact Ho | exact Hp]].
Defined.


Lemma spawn_tunnel_when_terminating_witness :
  exists w',
    spawn_tunnel 1 tunnel host shut_down = Ok tt w' /\
    popen_calls w' = popen_calls shut_down /\
    starts_history_of tunnel (self w')
    = (starts_history_of tunnel (self shut_down)
       ++ [env_today (env shut_down) (clock shut_down)])%list.
Proof.
  destruct (spawn_tunnel_when_terminating 0 tunnel host shut_down)
    as (w' & Hrun & Ho & _ & _ & Hh).
  - vm_compute; reflexivity.
  - exists w'. split; [exact Hrun | split; [exact Ho | exact Hh]].
Defined.



Lemma no_kill_without_kill_flag_witness :
  added (trace (fresh failing)) (Forall not_a_kill)
    (outcome_world (spawn_tunnel 3 gentle_tunnel host (fresh failing))).
Proof.
  apply (no_kill_without_kill_flag 3 args signature gentle_tunnel host
           (fresh failing)).
  reflexivity.
Defined.

Lemma process_list_handles_are_distinct_witness :
  handles_ok (outcome_world (spawn_tunnel 3 tunnel host (fresh failing))).
Proof.
  apply (process_list_handles_are_distinct 3 args signature tunnel host
           (fresh failing)).
  split; [apply NoDup_nil_2 | intros h Hh; exfalso; exact (proj1 (elem_of_nil h) Hh)].
Defined.


End MoreExamples.
